(** * Personal Notes Organizer: the note / category state model of [App.js]

    A shallow embedding of the state-management code of
    [src/notes_frontend/src/App.js] (the [App] component's state slices and
    its handlers) and of the derived note list [filteredNotes], followed by
    the properties of that model.

    Conventions of the embedding:
    - JavaScript strings are [string]s whose characters are read as code
      units below 256; numbers that hold timestamps are integers ([Z]);
    - [Date.now()] is an effect: the [k]-th call made by the program returns
      [clock k], and the handlers that read the clock thread the number of
      calls made so far (the [Eff] monad below);
    - React state is one record, [App]; a handler is a function from the
      state it was rendered with to the state after its updates. *)

From Stdlib Require Import List String Ascii ZArith Lia Bool.
From Stdlib Require Import Sorted Permutation DecimalString.
Import ListNotations.

Local Open Scope string_scope.
Local Open Scope Z_scope.

(** ** JavaScript primitives used by the handlers *)

Module JS.

(** [!!s] for a string: only the empty string is falsy. *)
Definition truthy (s : string) : bool :=
  match s with
  | EmptyString => false
  | String _ _ => true
  end.

(** [a || b] on strings. *)
Definition or_else (a b : string) : string :=
  if truthy a then a else b.

(** [xs.includes(x)] on an array of strings. *)
Fixpoint includes (xs : list string) (x : string) : bool :=
  match xs with
  | [] => false
  | y :: ys => if String.eqb y x then true else includes ys x
  end.

(** White space removed by [String.prototype.trim], among code units
    below 256: TAB, LF, VT, FF, CR, SPACE and NO-BREAK SPACE. *)
Definition is_space (c : ascii) : bool :=
  let n := nat_of_ascii c in
  ((9 <=? n) && (n <=? 13))%nat || (n =? 32)%nat || (n =? 160)%nat.

Fixpoint trimStart (s : string) : string :=
  match s with
  | EmptyString => EmptyString
  | String c s' => if is_space c then trimStart s' else s
  end.

(** Drops the trailing white space: a character is kept when it is not a
    space or when something is kept after it. *)
Fixpoint trimEnd (s : string) : string :=
  match s with
  | EmptyString => EmptyString
  | String c s' =>
      match trimEnd s' with
      | EmptyString => if is_space c then EmptyString else String c EmptyString
      | r => String c r
      end
  end.

Definition trim (s : string) : string := trimEnd (trimStart s).

(** [String.prototype.toLowerCase] on code units below 256: the letters
    A-Z and the Latin-1 capitals (U+00C0-U+00DE but U+00D7) move up by 32. *)
Definition lower_char (c : ascii) : ascii :=
  let n := nat_of_ascii c in
  if ((65 <=? n) && (n <=? 90))%nat
     || ((192 <=? n) && (n <=? 222) && negb (n =? 215))%nat
  then ascii_of_nat (n + 32)
  else c.

Fixpoint toLowerCase (s : string) : string :=
  match s with
  | EmptyString => EmptyString
  | String c s' => String (lower_char c) (toLowerCase s')
  end.

(** [s.includes(q)]: [q] occurs in [s] as a contiguous substring. *)
Fixpoint str_includes (s q : string) : bool :=
  if String.prefix q s then true
  else match s with
       | EmptyString => false
       | String _ s' => str_includes s' q
       end.

(** The decimal text of an integer, as a template literal prints it. *)
Definition show (z : Z) : string := NilZero.string_of_int (Z.to_int z).

(** [Array.prototype.sort(cmp)]: a stable sort (ECMAScript 2019); [a] is
    placed before [b] when [cmp a b <= 0] or when [a] came first among the
    elements the comparator does not separate.  Written as the stable
    insertion sort, from the right end of the array. *)
Section Sort.
Context {A : Type} (cmp : A -> A -> Z).

Fixpoint insert (x : A) (l : list A) : list A :=
  match l with
  | [] => [x]
  | y :: l' => if cmp x y <=? 0 then x :: l else y :: insert x l'
  end.

Definition sort (l : list A) : list A := fold_right insert [] l.
End Sort.

End JS.

(** ** Data model *)

(** line 8 *)
Definition DEFAULT_CATEGORIES : list string :=
  ["All Notes"; "Personal"; "Work"; "Ideas"; "Archive"]%string.

(** The object built by [createNote] (lines 41-49). *)
Record Note : Type := mkNote {
  id : string;
  title : string;
  content : string;
  category : string;
  createdAt : Z;
  updatedAt : Z;
  archived : bool
}.

(** The [fields] object of [handleUpdateNote]: any subset of a note's
    properties. *)
Record Fields : Type := mkFields {
  f_id : option string;
  f_title : option string;
  f_content : option string;
  f_category : option string;
  f_createdAt : option Z;
  f_updatedAt : option Z;
  f_archived : option bool
}.

Definition pick {A : Type} (o : option A) (d : A) : A :=
  match o with Some a => a | None => d end.

(** [{ ...n, ...fields }] *)
Definition spread (n : Note) (fields : Fields) : Note :=
  {| id := pick (f_id fields) (id n);
     title := pick (f_title fields) (title n);
     content := pick (f_content fields) (content n);
     category := pick (f_category fields) (category n);
     createdAt := pick (f_createdAt fields) (createdAt n);
     updatedAt := pick (f_updatedAt fields) (updatedAt n);
     archived := pick (f_archived fields) (archived n) |}.

(** The patches the editor sends, [{ title }] and [{ content }], and the
    category patch of the update operation: the user-editable fields. *)
Definition patch (t c g : option string) : Fields :=
  {| f_id := None; f_title := t; f_content := c; f_category := g;
     f_createdAt := None; f_updatedAt := None; f_archived := None |}.

(** The state slices of [App] (lines 73-82). *)
Record App : Type := mkApp {
  categories : list string;
  activeCategory : string;
  newCategoryName : string;
  notes : list Note;
  searchQuery : string;
  selectedNoteId : option string
}.

(** The state of a first start: nothing in local storage, so both
    [loadFromStorage] calls return their fallback. *)
Definition initial : App :=
  {| categories := DEFAULT_CATEGORIES;
     activeCategory := "All Notes";
     newCategoryName := "";
     notes := [];
     searchQuery := "";
     selectedNoteId := None |}.

(** ** The clock *)

(** A computation that may call [Date.now()]: from the number of calls made
    so far to a result and the number of calls made after it. *)
Definition Eff (A : Type) : Type := nat -> A * nat.

Definition ret {A : Type} (a : A) : Eff A := fun k => (a, k).

Definition bind {A B : Type} (m : Eff A) (f : A -> Eff B) : Eff B :=
  fun k => let (a, k') := m k in f a k'.

Notation "x <- m ;; f" := (bind m (fun x => f))
  (at level 61, m at next level, right associativity).

(** [xs.map(f)] for a callback with effects: left to right. *)
Fixpoint mapM {A B : Type} (f : A -> Eff B) (l : list A) : Eff (list B) :=
  match l with
  | [] => ret []
  | x :: l' => y <- f x ;; ys <- mapM f l' ;; ret (y :: ys)
  end.

(** How [createNote] obtains the id (line 42): from [crypto.randomUUID()]
    when the runtime has it, else from the clock and [Math.random()], whose
    printed value is [rnd]. *)
Inductive IdSource : Type :=
| RandomUUID (uuid : string)
| NoRandomUUID (rnd : string).

(** Functional updates of one state slice ([setNotes], [setCategories],
    ...). *)
Definition set_categories (f : list string -> list string) (st : App) : App :=
  {| categories := f (categories st);
     activeCategory := activeCategory st;
     newCategoryName := newCategoryName st;
     notes := notes st;
     searchQuery := searchQuery st;
     selectedNoteId := selectedNoteId st |}.

Definition set_activeCategory (c : string) (st : App) : App :=
  {| categories := categories st;
     activeCategory := c;
     newCategoryName := newCategoryName st;
     notes := notes st;
     searchQuery := searchQuery st;
     selectedNoteId := selectedNoteId st |}.

Definition set_newCategoryName (c : string) (st : App) : App :=
  {| categories := categories st;
     activeCategory := activeCategory st;
     newCategoryName := c;
     notes := notes st;
     searchQuery := searchQuery st;
     selectedNoteId := selectedNoteId st |}.

Definition set_notes (f : list Note -> list Note) (st : App) : App :=
  {| categories := categories st;
     activeCategory := activeCategory st;
     newCategoryName := newCategoryName st;
     notes := f (notes st);
     searchQuery := searchQuery st;
     selectedNoteId := selectedNoteId st |}.

Definition set_searchQuery (q : string) (st : App) : App :=
  {| categories := categories st;
     activeCategory := activeCategory st;
     newCategoryName := newCategoryName st;
     notes := notes st;
     searchQuery := q;
     selectedNoteId := selectedNoteId st |}.

Definition set_selectedNoteId (i : option string) (st : App) : App :=
  {| categories := categories st;
     activeCategory := activeCategory st;
     newCategoryName := newCategoryName st;
     notes := notes st;
     searchQuery := searchQuery st;
     selectedNoteId := i |}.

(** ** Derived data *)

(** lines 52-54 *)
Definition sortNotesByUpdatedAtDesc (a b : Note) : Z :=
  updatedAt b - updatedAt a.

(** The three base filters of lines 95-103. *)
Definition baseFilter (activeCategory : string) (l : list Note) : list Note :=
  if JS.truthy activeCategory && negb (activeCategory =? "All Notes")%string
  then
    if (activeCategory =? "Archive")%string
    then filter (fun n => archived n) l
    else filter (fun n => (category n =? activeCategory)%string
                          && negb (archived n)) l
  else filter (fun n => negb (archived n)) l.

(** The search filter of lines 104-111: the test is on the trimmed query,
    the match on the lower-cased query as typed. *)
Definition searchFilter (searchQuery : string) (l : list Note) : list Note :=
  if JS.truthy (JS.trim searchQuery)
  then
    let q := JS.toLowerCase searchQuery in
    filter (fun n =>
              JS.str_includes (JS.toLowerCase (JS.or_else (title n) "")) q
              || JS.str_includes (JS.toLowerCase (JS.or_else (content n) "")) q)
           l
  else l.

(** lines 93-113: the View Projector. *)
Definition filteredNotes (notes : list Note)
    (activeCategory searchQuery : string) : list Note :=
  JS.sort sortNotesByUpdatedAtDesc
    (searchFilter searchQuery (baseFilter activeCategory notes)).

(** lines 115-118 *)
Definition selectedNote (st : App) : option Note :=
  match selectedNoteId st with
  | Some i => find (fun n => (id n =? i)%string) (notes st)
  | None => None
  end.

(** What the list shows as a note's title (line 430). *)
Definition displayTitle (n : Note) : string :=
  JS.or_else (title n) "Untitled note".

(** ** Handlers *)

Definition protected (name : string) : bool :=
  JS.includes ["All Notes"; "Archive"]%string name.

Section Handlers.

Variable clock : nat -> Z.

Definition Date_now : Eff Z := fun k => (clock k, S k).

Definition newId (src : IdSource) : Eff string :=
  match src with
  | RandomUUID uuid => ret uuid
  | NoRandomUUID rnd =>
      t <- Date_now ;; ret (JS.show t ++ "-" ++ rnd)%string
  end.

(** lines 40-50; an omitted property of the argument takes its default. *)
Definition createNote (src : IdSource)
    (title content category : option string) : Eff Note :=
  let title := pick title "" in
  let content := pick content "" in
  let category := pick category "Personal" in
  i <- newId src ;;
  c <- Date_now ;;
  u <- Date_now ;;
  ret {| id := i;
         title := title;
         content := content;
         category := category;
         createdAt := c;
         updatedAt := u;
         archived := (category =? "Archive")%string |}.

(** lines 123-124; [categoryHint] is [None] when the caller passes
    nothing. *)
Definition hintedCategory (categoryHint : option string) : string :=
  match categoryHint with
  | Some h =>
      if JS.truthy h && negb (h =? "All Notes")%string then h
      else "Personal"
  | None => "Personal"
  end.

(** lines 122-135 *)
Definition handleCreateNote (src : IdSource) (categoryHint : option string)
    (st : App) : Eff App :=
  let category := hintedCategory categoryHint in
  note <- createNote src (Some "Untitled note") (Some "") (Some category) ;;
  let st := set_notes (fun prev => note :: prev) st in
  let st := set_selectedNoteId (Some (id note)) st in
  ret (if negb (JS.includes (categories st) category)
          && negb (category =? "Archive")%string
       then set_categories (fun prev => (prev ++ [category])%list) st
       else st).

(** lines 138-144 *)
Definition handleUpdateNote (i : string) (fields : Fields) (st : App)
    : Eff App :=
  ns <- mapM (fun n =>
                if (id n =? i)%string
                then
                  now <- Date_now ;;
                  ret (spread (spread n fields)
                         {| f_id := None; f_title := None;
                            f_content := None; f_category := None;
                            f_createdAt := None; f_updatedAt := Some now;
                            f_archived := None |})
                else ret n)
             (notes st) ;;
  ret (set_notes (fun _ => ns) st).

(** lines 147-150 *)
Definition handleDeleteNote (i : string) (st : App) : App :=
  let st' := set_notes (filter (fun n => negb (id n =? i)%string)) st in
  match selectedNoteId st with
  | Some s => if (s =? i)%string then set_selectedNoteId None st' else st'
  | None => st'
  end.

(** lines 153-166 *)
Definition toggled (n : Note) (now : Z) : Note :=
  {| id := id n;
     title := title n;
     content := content n;
     category := if negb (archived n) then "Archive"
                 else JS.or_else (category n) "Personal";
     createdAt := createdAt n;
     updatedAt := now;
     archived := negb (archived n) |}.

Definition handleArchiveToggle (i : string) (st : App) : Eff App :=
  ns <- mapM (fun n =>
                if (id n =? i)%string
                then now <- Date_now ;; ret (toggled n now)
                else ret n)
             (notes st) ;;
  ret (set_notes (fun _ => ns) st).

(** lines 170-176 *)
Definition addCategory (name : string) (st : App) : App :=
  let trimmed := JS.trim name in
  if negb (JS.truthy trimmed) then st
  else if JS.includes (categories st) trimmed then st
  else set_newCategoryName ""
         (set_categories (fun prev => (prev ++ [trimmed])%list) st).

Definition with_category (c : string) (n : Note) : Note :=
  {| id := id n;
     title := title n;
     content := content n;
     category := c;
     createdAt := createdAt n;
     updatedAt := updatedAt n;
     archived := archived n |}.

(** lines 179-189 *)
Definition renameCategory (oldName newName : string) (st : App) : App :=
  let trimmed := JS.trim newName in
  if negb (JS.truthy trimmed) || protected oldName then st
  else if JS.includes (categories st) trimmed then st
  else
    let st1 :=
      set_categories
        (map (fun c => if (c =? oldName)%string then trimmed else c)) st in
    let st2 :=
      set_notes
        (map (fun n => if (category n =? oldName)%string
                       then with_category trimmed n else n)) st1 in
    if (activeCategory st =? oldName)%string
    then set_activeCategory trimmed st2
    else st2.

(** lines 192-200 *)
Definition deleteCategory (name : string) (st : App) : App :=
  if protected name then st
  else
    let st1 :=
      set_categories (filter (fun c => negb (c =? name)%string)) st in
    let st2 :=
      set_notes
        (map (fun n => if (category n =? name)%string
                       then with_category "Personal" n else n)) st1 in
    if (activeCategory st =? name)%string
    then set_activeCategory "All Notes" st2
    else st2.

(** ** Sequences of user actions *)

Inductive Op : Type :=
| CreateNote (src : IdSource) (categoryHint : option string)
| UpdateNote (i : string) (t c g : option string)
| DeleteNote (i : string)
| ArchiveToggle (i : string)
| AddCategory (name : string)
| RenameCategory (oldName newName : string)
| DeleteCategory (name : string)
| SelectCategory (c : string)
| SelectNote (i : string)
| Search (q : string).

Definition step (o : Op) (st : App) : Eff App :=
  match o with
  | CreateNote src h => handleCreateNote src h st
  | UpdateNote i t c g => handleUpdateNote i (patch t c g) st
  | DeleteNote i => ret (handleDeleteNote i st)
  | ArchiveToggle i => handleArchiveToggle i st
  | AddCategory name => ret (addCategory name st)
  | RenameCategory o n => ret (renameCategory o n st)
  | DeleteCategory name => ret (deleteCategory name st)
  | SelectCategory c => ret (set_activeCategory c st)
  | SelectNote i => ret (set_selectedNoteId (Some i) st)
  | Search q => ret (set_searchQuery q st)
  end.

Fixpoint run (ops : list Op) (st : App) : Eff App :=
  match ops with
  | [] => ret st
  | o :: ops' => st' <- step o st ;; run ops' st'
  end.

End Handlers.

(** ** Vocabulary of the statements *)

(** The test a note passes to be in the base set of [activeCategory]. *)
Definition inBase (activeCategory : string) (n : Note) : bool :=
  if JS.truthy activeCategory && negb (activeCategory =? "All Notes")%string
  then
    if (activeCategory =? "Archive")%string then archived n
    else (category n =? activeCategory)%string && negb (archived n)
  else negb (archived n).

(** The test a note passes to survive the search for [searchQuery]. *)
Definition matches (searchQuery : string) (n : Note) : bool :=
  if JS.truthy (JS.trim searchQuery)
  then
    JS.str_includes (JS.toLowerCase (JS.or_else (title n) ""))
                    (JS.toLowerCase searchQuery)
    || JS.str_includes (JS.toLowerCase (JS.or_else (content n) ""))
                       (JS.toLowerCase searchQuery)
  else true.

Definition visible (activeCategory searchQuery : string) (n : Note) : bool :=
  inBase activeCategory n && matches searchQuery n.

(** A comparator that subtracts keys, second minus first, and the order it
    sorts into. *)
Definition byKeyDesc {A : Type} (key : A -> Z) (a b : A) : Z := key b - key a.

Definition keyDesc {A : Type} (key : A -> Z) (a b : A) : Prop :=
  key b <= key a.

(** Most recently updated first. *)
Definition updatedDesc (a b : Note) : Prop := updatedAt a >= updatedAt b.

(** The notes of a list that were last updated at [t], in list order. *)
Definition updatedAtTime (t : Z) (l : list Note) : list Note :=
  filter (fun n => updatedAt n =? t) l.

(** [n'] is [n] but for its category. *)
Definition sameButCategory (n n' : Note) : Prop :=
  id n' = id n /\ title n' = title n /\ content n' = content n
  /\ createdAt n' = createdAt n /\ updatedAt n' = updatedAt n
  /\ archived n' = archived n.

(** [n'] is [n] after the cascade of a rename of [oldName] to [newName]. *)
Definition cascaded (oldName newName : string) (n n' : Note) : Prop :=
  sameButCategory n n'
  /\ (category n = oldName -> category n' = newName)
  /\ (category n <> oldName -> category n' = category n).

(** Later calls of [Date.now()] never return less. *)
Definition nondecreasing (clock : nat -> Z) : Prop :=
  forall i j : nat, (i <= j)%nat -> clock i <= clock j.

(** What the handlers keep of every note once [k] calls of the clock have
    been made: it was not updated before it was created, and it was created
    no later than any reading still to come. *)
Definition untouchedPast (clock : nat -> Z) (k : nat) (n : Note) : Prop :=
  updatedAt n >= createdAt n
  /\ forall j : nat, (k <= j)%nat -> createdAt n <= clock j.

(** A clock that advances by one millisecond at every call. *)
Definition ticking (k : nat) : Z := 1700000000000 + Z.of_nat k.

(** A clock that stands still. *)
Definition frozen (k : nat) : Z := 1700000000000.

(** [n'] is [n] after an archive toggle on the id [i]. *)
Definition toggledBy (i : string) (n n' : Note) : Prop :=
  if (id n =? i)%string then exists now : Z, n' = toggled n now else n' = n.

(** [n'] is [n] after two archive toggles in a row on the id [i]. *)
Definition toggledTwiceBy (i : string) (n n' : Note) : Prop :=
  if (id n =? i)%string
  then exists now : Z,
      n' = {| id := id n;
              title := title n;
              content := content n;
              category := "Archive";
              createdAt := createdAt n;
              updatedAt := now;
              archived := archived n |}
  else n' = n.

(** The notes of the examples of the specification, an archived note, and a
    note whose category is not in the registry. *)
Definition noteA : Note := mkNote "A" "Shopping" "" "Personal" 1 1 false.
Definition noteB : Note := mkNote "B" "Budget plan" "" "Work" 2 2 false.
Definition noteC : Note := mkNote "C" "Receipts" "" "Archive" 3 4 true.
Definition noteD : Note := mkNote "D" "Packing list" "" "Travel" 5 5 false.

Definition desk : App :=
  {| categories := DEFAULT_CATEGORIES;
     activeCategory := "Travel";
     newCategoryName := "";
     notes := [noteD; noteC; noteB; noteA];
     searchQuery := "";
     selectedNoteId := None |}.

(** ** The rest of the component *)

(** line 70 *)
Definition toggleTheme (prev : string) : string :=
  if (prev =? "light")%string then "dark" else "light".

(** The text of the theme button (line 257). *)
Definition themeButton (theme : string) : string :=
  if (theme =? "light")%string then "Dark mode" else "Light mode".

(** The [New Note] button (line 228): the active category is the hint. *)
Definition onCreateNote (clock : nat -> Z) (src : IdSource) (st : App)
    : Eff App :=
  handleCreateNote clock src (Some (activeCategory st)) st.

(** The callbacks the editor gets (lines 406-408): nothing happens without
    a selected note. *)
Definition editorChange (clock : nat -> Z) (fields : Fields) (st : App)
    : Eff App :=
  match selectedNote st with
  | Some n => handleUpdateNote clock (id n) fields st
  | None => ret st
  end.


Definition editorArchiveToggle (clock : nat -> Z) (st : App) : Eff App :=
  match selectedNote st with
  | Some n => handleArchiveToggle clock (id n) st
  | None => ret st
  end.

(** The excerpt on a note card (line 449). *)
Definition cardExcerpt (n : Note) : string :=
  JS.or_else (String.substring 0 120 (JS.or_else (content n) ""))
             "No content yet...".

(** Whether the sidebar offers rename and delete for a category
    (line 339). *)
Definition editable (cat : string) : bool := negb (protected cat).

(** ** Local storage *)

(** lines 13-17 *)
Module STORAGE_KEYS.
Definition NOTES : string := "notes_frontend__notes".
Definition CATEGORIES : string := "notes_frontend__categories".
Definition THEME : string := "notes_frontend__theme".
End STORAGE_KEYS.

(** [localStorage]: the text kept under each key, if any.  A storage that
    cannot be read answers as the empty one. *)
Definition Storage : Type := string -> option string.

Definition emptyStorage : Storage := fun _ => None.

(** [localStorage.setItem(key, text)] when it goes through. *)
Definition setItem (key text : string) (s : Storage) : Storage :=
  fun k => if (k =? key)%string then Some text else s k.

Section Persistence.

Context {V : Type}.

(** [JSON.parse], [None] when it throws, and [JSON.stringify], for the
    values of one slot. *)
Variable parse : string -> option V.
Variable stringify : V -> string.

(** lines 19-27 *)
Definition loadFromStorage (s : Storage) (key : string) (fallback : V) : V :=
  match s key with
  | None => fallback
  | Some raw =>
      if negb (JS.truthy raw) then fallback
      else match parse raw with
           | Some v => v
           | None => fallback
           end
  end.

(** lines 29-35; [written] tells whether [setItem] went through or threw,
    which the [catch] swallows. *)
Definition saveToStorage (written : bool) (key : string) (value : V)
    (s : Storage) : Storage :=
  if written then setItem key (stringify value) s else s.

End Persistence.

(** The state of the first render (lines 73-82): categories and notes
    from storage or their defaults, the rest as written. *)
Definition start (parseCategories : string -> option (list string))
    (parseNotes : string -> option (list Note)) (s : Storage) : App :=
  {| categories :=
       loadFromStorage parseCategories s STORAGE_KEYS.CATEGORIES
                       DEFAULT_CATEGORIES;
     activeCategory := "All Notes";
     newCategoryName := "";
     notes := loadFromStorage parseNotes s STORAGE_KEYS.NOTES [];
     searchQuery := "";
     selectedNoteId := None |}.

(** The theme of the first render (line 63). *)
Definition startTheme (parseTheme : string -> option string) (s : Storage)
    : string :=
  loadFromStorage parseTheme s STORAGE_KEYS.THEME "light".

(** The two effects that follow a render in which notes and categories
    changed (lines 84-90), in the order they are declared; [wn] and [wc]
    tell whether each write went through. *)
Definition persist (stringifyCategories : list string -> string)
    (stringifyNotes : list Note -> string) (wn wc : bool)
    (st : App) (s : Storage) : Storage :=
  saveToStorage stringifyCategories wc STORAGE_KEYS.CATEGORIES (categories st)
    (saveToStorage stringifyNotes wn STORAGE_KEYS.NOTES (notes st) s).

(** JSON texts, for strings that need no escape: what [JSON.stringify]
    prints for a string, an array and a note. *)
Definition quote : string := String (ascii_of_nat 34) EmptyString.

Definition jsonString (w : string) : string := (quote ++ w ++ quote)%string.

Definition jsonArray {A : Type} (item : A -> string) (l : list A) : string :=
  ("[" ++ String.concat "," (map item l) ++ "]")%string.

Definition jsonBool (b : bool) : string := if b then "true" else "false".

Definition jsonNote (n : Note) : string :=
  ("{" ++ jsonString "id" ++ ":" ++ jsonString (id n)
   ++ "," ++ jsonString "title" ++ ":" ++ jsonString (title n)
   ++ "," ++ jsonString "content" ++ ":" ++ jsonString (content n)
   ++ "," ++ jsonString "category" ++ ":" ++ jsonString (category n)
   ++ "," ++ jsonString "createdAt" ++ ":" ++ JS.show (createdAt n)
   ++ "," ++ jsonString "updatedAt" ++ ":" ++ JS.show (updatedAt n)
   ++ "," ++ jsonString "archived" ++ ":" ++ jsonBool (archived n)
   ++ "}")%string.

(** A reader that knows the texts of a few values: the first known value
    whose text is [raw]. *)
Definition readAmong {V : Type} (stringify : V -> string) (known : list V)
    (raw : string) : option V :=
  find (fun v => (stringify v =? raw)%string) known.

(** ** More vocabulary *)

(** A state the user can reach from a first start, and the number of clock
    readings made on the way. *)
Definition reachable (clock : nat -> Z) (st : App) (k : nat) : Prop :=
  exists (ops : list Op) (k0 : nat), run clock ops initial k0 = (st, k).

(** No note was updated later than a reading still to come. *)
Definition notAhead (clock : nat -> Z) (k : nat) (n : Note) : Prop :=
  forall j : nat, (k <= j)%nat -> updatedAt n <= clock j.

(** [n'] is [n] after an update of the id [i] by [fields], the time
    apart. *)
Definition updatedBy (i : string) (t c g : option string) (n n' : Note)
    : Prop :=
  if (id n =? i)%string
  then id n' = id n
       /\ title n' = pick t (title n)
       /\ content n' = pick c (content n)
       /\ category n' = pick g (category n)
       /\ createdAt n' = createdAt n
       /\ archived n' = archived n
  else n' = n.

(** Only white space. *)
Fixpoint blank (s : string) : bool :=
  match s with
  | EmptyString => true
  | String c s' => JS.is_space c && blank s'
  end.

(** A short session on the ticking clock, the state it ends in and the
    number of clock readings it made. *)
Definition session : list Op :=
  [CreateNote (RandomUUID "n1") None;
   UpdateNote "n1" (Some "Groceries") None None;
   CreateNote (NoRandomUUID "0.25") (Some "Work");
   ArchiveToggle "n1";
   AddCategory " Travel ";
   SelectCategory "Work"].

Definition worked : App := fst (run ticking session initial 0%nat).

Definition workedTicks : nat := snd (run ticking session initial 0%nat).

(** * Properties *)

(** ** Facts about the JavaScript primitives *)

Lemma includes_In (xs : list string) (x : string) :
  JS.includes xs x = true <-> In x xs.
Proof.
  induction xs as [|y ys IH]; simpl.
  - split; [discriminate | tauto].
  - destruct (String.eqb_spec y x) as [->|Hne].
    + split; auto.
    + rewrite IH. split; [auto | intros [E|H]; [contradiction | exact H]].
Qed.

Lemma includes_not_In (xs : list string) (x : string) :
  JS.includes xs x = false <-> ~ In x xs.
Proof.
  rewrite <- includes_In. destruct (JS.includes xs x); split; congruence.
Qed.

Lemma truthy_nonempty (s : string) : JS.truthy s = true <-> s <> "".
Proof.
  destruct s; simpl; split; congruence.
Qed.

Lemma protected_spec (name : string) :
  protected name = true <-> name = "All Notes" \/ name = "Archive".
Proof.
  unfold protected. rewrite includes_In. simpl. intuition congruence.
Qed.

(** The stable sort on a comparator [fun a b => key b - key a]: the result
    is a permutation in descending key order that keeps, for each key, the
    elements in the order they had. *)
Section SortByKeyDesc.

Context {A : Type} (key : A -> Z).

Local Abbreviation cmp := (byKeyDesc key).
Local Abbreviation desc := (keyDesc key).

Lemma insert_perm (x : A) (l : list A) :
  Permutation (JS.insert cmp x l) (x :: l).
Proof.
  induction l as [|y l IH]; simpl; [reflexivity|].
  destruct (cmp x y <=? 0); [reflexivity|].
  rewrite IH. apply perm_swap.
Qed.

Lemma sort_perm (l : list A) : Permutation (JS.sort cmp l) l.
Proof.
  induction l as [|x l IH]; simpl; [reflexivity|].
  unfold JS.sort in *. simpl. rewrite insert_perm. now constructor.
Qed.

Lemma insert_sorted (x : A) (l : list A) :
  StronglySorted desc l -> StronglySorted desc (JS.insert cmp x l).
Proof.
  induction 1 as [|y l Hs IH Hy]; simpl.
  - repeat constructor.
  - destruct (Z.leb_spec (cmp x y) 0) as [Hle|Hgt]; unfold cmp in *.
    + constructor; [now constructor|].
      constructor; [unfold desc; lia|].
      eapply Forall_impl; [|exact Hy]. unfold desc. intros b Hb. lia.
    + constructor; [exact IH|].
      eapply Permutation_Forall; [symmetry; apply insert_perm|].
      constructor; [unfold desc; lia | exact Hy].
Qed.

Lemma sort_sorted (l : list A) : StronglySorted desc (JS.sort cmp l).
Proof.
  induction l as [|x l IH]; simpl; [constructor|].
  now apply insert_sorted.
Qed.

Lemma insert_stable (t : Z) (x : A) (l : list A) :
  filter (fun a => key a =? t) (JS.insert cmp x l)
  = filter (fun a => key a =? t) (x :: l).
Proof.
  induction l as [|y l IH]; simpl; [reflexivity|].
  destruct (Z.leb_spec (cmp x y) 0) as [Hle|Hgt]; [reflexivity|].
  simpl in *. rewrite IH. unfold cmp in Hgt.
  destruct (Z.eqb_spec (key x) t), (Z.eqb_spec (key y) t);
    try reflexivity; lia.
Qed.

Lemma sort_stable (t : Z) (l : list A) :
  filter (fun a => key a =? t) (JS.sort cmp l)
  = filter (fun a => key a =? t) l.
Proof.
  induction l as [|x l IH]; [reflexivity|].
  change (JS.sort cmp (x :: l)) with (JS.insert cmp x (JS.sort cmp l)).
  rewrite insert_stable. simpl. now rewrite IH.
Qed.

(** Descending order and the per-key order determine a list. *)
Lemma sorted_stable_unique (l1 l2 : list A) :
  StronglySorted desc l1 -> StronglySorted desc l2 ->
  (forall t, filter (fun a => key a =? t) l1
             = filter (fun a => key a =? t) l2) ->
  l1 = l2.
Proof.
  intros H1. revert l2.
  induction H1 as [|x l1 Hs1 IH Hx]; intros l2 H2 Heq.
  - destruct l2 as [|y l2]; [reflexivity|].
    specialize (Heq (key y)). simpl in Heq.
    rewrite Z.eqb_refl in Heq. discriminate.
  - destruct H2 as [|y l2 Hs2 Hy].
    + specialize (Heq (key x)). simpl in Heq.
      rewrite Z.eqb_refl in Heq. discriminate.
    + assert (Hin : forall a l l', 
                 (forall t, filter (fun a => key a =? t) l
                            = filter (fun a => key a =? t) l') ->
                 In a l -> In a l').
      { intros a l l' E Ha.
        assert (In a (filter (fun b => key b =? key a) l))
          by (apply filter_In; split; [exact Ha | apply Z.eqb_refl]).
        rewrite E in H. now apply filter_In in H. }
      assert (Hyx : key y <= key x).
      { assert (In y (x :: l1))
          by (apply (Hin y (y :: l2)); [now intros; rewrite Heq | now left]).
        destruct H as [->|H]; [lia|].
        rewrite Forall_forall in Hx. now apply Hx. }
      assert (Hxy : key x <= key y).
      { assert (In x (y :: l2))
          by (apply (Hin x (x :: l1)); [exact Heq | now left]).
        destruct H as [->|H]; [lia|].
        rewrite Forall_forall in Hy. now apply Hy. }
      assert (x = y).
      { specialize (Heq (key x)). simpl in Heq.
        rewrite Z.eqb_refl in Heq.
        replace (key y =? key x) with true in Heq by (symmetry; apply Z.eqb_eq; lia).
        congruence. }
      subst y. f_equal. apply IH; [exact Hs2|].
      intros t. specialize (Heq t). simpl in Heq.
      destruct (key x =? t); congruence.
Qed.

End SortByKeyDesc.

(** ** The View Projector *)

Lemma baseFilter_filter (activeCategory : string) (l : list Note) :
  baseFilter activeCategory l = filter (inBase activeCategory) l.
Proof.
  unfold baseFilter, inBase.
  destruct (JS.truthy activeCategory && negb (activeCategory =? "All Notes")%string);
    [destruct (activeCategory =? "Archive")%string|]; reflexivity.
Qed.

Lemma searchFilter_filter (searchQuery : string) (l : list Note) :
  searchFilter searchQuery l = filter (matches searchQuery) l.
Proof.
  unfold searchFilter, matches.
  destruct (JS.truthy (JS.trim searchQuery)); [reflexivity|].
  induction l as [|n l IH]; simpl; congruence.
Qed.

Lemma filter_filter {A : Type} (p q : A -> bool) (l : list A) :
  filter q (filter p l) = filter (fun a => p a && q a) l.
Proof.
  induction l as [|a l IH]; simpl; [reflexivity|].
  destruct (p a); simpl; [destruct (q a)|]; now rewrite IH.
Qed.

(** The projector sorts the visible notes, taken in storage order. *)
Lemma filteredNotes_sort_visible (ns : list Note) (ac q : string) :
  filteredNotes ns ac q
  = JS.sort sortNotesByUpdatedAtDesc (filter (visible ac q) ns).
Proof.
  unfold filteredNotes.
  now rewrite baseFilter_filter, searchFilter_filter, filter_filter.
Qed.

Lemma filteredNotes_In (ns : list Note) (ac q : string) (n : Note) :
  In n (filteredNotes ns ac q) <-> In n ns /\ visible ac q n = true.
Proof.
  rewrite filteredNotes_sort_visible, <- filter_In.
  split; apply Permutation_in;
    [|symmetry]; apply (sort_perm updatedAt).
Qed.

Lemma inBase_archived (ac : string) (n : Note) :
  inBase ac n = true -> archived n = (ac =? "Archive")%string.
Proof.
  unfold inBase.
  destruct (String.eqb_spec ac "Archive") as [->|Hne]; simpl.
  - auto.
  - destruct (JS.truthy ac && negb (ac =? "All Notes")%string).
    + intros H. apply andb_true_iff in H. destruct H as [_ H].
      now apply negb_true_iff.
    + apply negb_true_iff.
Qed.

(** C2.  Whatever the collection, the active category and the search query,
    a note of the projected list is archived exactly when the active
    category is [Archive]: no archived note is shown under another category
    (an empty one and [All Notes] included), and no note that is not
    archived is shown under [Archive]. *)
Theorem C2_view_archive_partition
    (ns : list Note) (activeCategory searchQuery : string) (n : Note) :
  In n (filteredNotes ns activeCategory searchQuery) ->
  (activeCategory <> "Archive" -> archived n = false)
  /\ (activeCategory = "Archive" -> archived n = true).
Proof.
  intros Hin. apply filteredNotes_In in Hin. destruct Hin as [_ Hv].
  unfold visible in Hv. apply andb_true_iff in Hv. destruct Hv as [Hb _].
  apply inBase_archived in Hb. rewrite Hb.
  split; intros H.
  - now apply String.eqb_neq.
  - now apply String.eqb_eq.
Qed.

(** C8.  The projected list is a function of the collection, the active
    category and the search query alone.  It is in descending order of
    [updatedAt]; for every time [t], its notes updated at [t] are the
    visible notes of the collection updated at [t], in storage order; and it
    is the only list with these two properties, so equal inputs give equal
    output sequences. *)
Theorem C8_view_sorted_stable_deterministic
    (ns : list Note) (activeCategory searchQuery : string) :
  StronglySorted updatedDesc (filteredNotes ns activeCategory searchQuery)
  /\ (forall t : Z,
        updatedAtTime t (filteredNotes ns activeCategory searchQuery)
        = updatedAtTime t (filter (visible activeCategory searchQuery) ns))
  /\ (forall out : list Note,
        StronglySorted updatedDesc out ->
        (forall t : Z,
            updatedAtTime t out
            = updatedAtTime t (filter (visible activeCategory searchQuery) ns)) ->
        out = filteredNotes ns activeCategory searchQuery)
  /\ (forall (ns' : list Note) (activeCategory' searchQuery' : string),
        ns' = ns -> activeCategory' = activeCategory ->
        searchQuery' = searchQuery ->
        filteredNotes ns' activeCategory' searchQuery'
        = filteredNotes ns activeCategory searchQuery).
Proof.
  assert (Hsorted : forall l, 
             StronglySorted updatedDesc l
             <-> StronglySorted (fun a b => updatedAt b <= updatedAt a) l).
  { intros l. split; intros H; induction H; constructor; auto;
      (eapply Forall_impl; [|eassumption]); unfold updatedDesc; intros; lia. }
  rewrite filteredNotes_sort_visible.
  split; [|split; [|split]].
  - apply Hsorted. apply (sort_sorted updatedAt).
  - intros t. apply (sort_stable updatedAt).
  - intros out Hout Hst.
    apply (sorted_stable_unique updatedAt).
    + now apply Hsorted.
    + apply (sort_sorted updatedAt).
    + intros t. unfold updatedAtTime in Hst. rewrite Hst.
      symmetry. apply (sort_stable updatedAt).
  - intros ns' ac' q' -> -> ->. now rewrite filteredNotes_sort_visible.
Qed.

(** ** Creating a note *)

Lemma createNote_run (clock : nat -> Z) (src : IdSource)
    (t c g : option string) (k : nat) :
  exists (i : string) (j : nat),
    (k <= j)%nat
    /\ createNote clock src t c g k
       = ({| id := i;
             title := pick t "";
             content := pick c "";
             category := pick g "Personal";
             createdAt := clock j;
             updatedAt := clock (S j);
             archived := (pick g "Personal" =? "Archive")%string |},
          S (S j)).
Proof.
  destruct src as [uuid|rnd].
  - exists uuid, k. split; [lia | reflexivity].
  - exists (JS.show (clock k) ++ "-" ++ rnd)%string, (S k).
    split; [lia | reflexivity].
Qed.

Lemma handleCreateNote_run (clock : nat -> Z) (src : IdSource)
    (hint : option string) (st : App) (k : nat) :
  exists (i : string) (j : nat) (st' : App),
    (k <= j)%nat
    /\ handleCreateNote clock src hint st k = (st', S (S j))
    /\ notes st'
       = {| id := i;
            title := "Untitled note";
            content := "";
            category := hintedCategory hint;
            createdAt := clock j;
            updatedAt := clock (S j);
            archived := (hintedCategory hint =? "Archive")%string |}
         :: notes st
    /\ (categories st' = categories st
        \/ categories st' = (categories st ++ [hintedCategory hint])%list)
    /\ activeCategory st' = activeCategory st.
Proof.
  unfold handleCreateNote.
  destruct (createNote_run clock src (Some "Untitled note") (Some "")
              (Some (hintedCategory hint)) k) as (i & j & Hj & Hrun).
  unfold bind at 1. rewrite Hrun. simpl pick. cbv beta iota. unfold ret.
  eexists i, j, _. split; [exact Hj|]. split; [reflexivity|].
  destruct (negb _ && negb _); simpl; auto.
Qed.

Lemma hintedCategory_unset (hint : option string) :
  hint = None \/ hint = Some "" \/ hint = Some "All Notes" ->
  hintedCategory hint = "Personal".
Proof.
  intros [->|[->| ->]]; reflexivity.
Qed.

(** C6, as the code has it.  The note that the create action puts at the
    front of the collection has category [Personal] and is not archived when
    the hint is unset, empty or [All Notes]; it has category [Archive] and is
    archived when the hint is [Archive].  Its two timestamps are two
    successive readings of the clock, [createdAt] first: on a clock that
    never goes back [createdAt <= updatedAt], and they are equal when the
    clock did not advance between the two readings. *)
Theorem C6_created_note_defaults
    (clock : nat -> Z) (src : IdSource) (hint : option string)
    (st : App) (k : nat) :
  nondecreasing clock ->
  exists n : Note,
    notes (fst (handleCreateNote clock src hint st k)) = n :: notes st
    /\ (hint = None \/ hint = Some "" \/ hint = Some "All Notes" ->
        category n = "Personal" /\ archived n = false)
    /\ (hint = Some "Archive" ->
        category n = "Archive" /\ archived n = true)
    /\ createdAt n <= updatedAt n
    /\ exists j : nat,
         createdAt n = clock j /\ updatedAt n = clock (S j)
         /\ (clock j = clock (S j) -> createdAt n = updatedAt n).
Proof.
  intros Hmono.
  destruct (handleCreateNote_run clock src hint st k)
    as (i & j & st' & Hj & Hrun & Hnotes & _).
  rewrite Hrun. simpl fst. rewrite Hnotes.
  eexists. split; [reflexivity|]. simpl.
  split; [|split; [|split]].
  - intros H. now rewrite (hintedCategory_unset hint H).
  - intros ->. split; reflexivity.
  - apply Hmono. lia.
  - exists j. auto.
Qed.

(** C9, as the code has it.  Every note produced by the create action is
    stored with the title [Untitled note].  The empty title is the default
    of the helper [createNote] alone, for a caller that passes no title, and
    the list shows [Untitled note] for a note whose stored title is
    empty. *)
Theorem C9_created_note_title
    (clock : nat -> Z) (src : IdSource) (hint : option string)
    (st : App) (k : nat) :
  (exists n : Note,
      notes (fst (handleCreateNote clock src hint st k)) = n :: notes st
      /\ title n = "Untitled note")
  /\ (forall c g : option string,
         title (fst (createNote clock src None c g k)) = "")
  /\ (forall n : Note, title n = "" -> displayTitle n = "Untitled note").
Proof.
  split; [|split].
  - destruct (handleCreateNote_run clock src hint st k)
      as (i & j & st' & _ & Hrun & Hnotes & _).
    rewrite Hrun. simpl fst. rewrite Hnotes. eexists. split; reflexivity.
  - intros c g.
    destruct (createNote_run clock src None c g k) as (i & j & _ & Hrun).
    now rewrite Hrun.
  - intros n Hn. unfold displayTitle. now rewrite Hn.
Qed.

(** ** The clock monad *)

Lemma mapM_cons {A B : Type} (f : A -> Eff B) (x : A) (l : list A) (k : nat) :
  mapM f (x :: l) k
  = let (y, k1) := f x k in
    let (ys, k2) := mapM f l k1 in (y :: ys, k2).
Proof.
  simpl. unfold bind. destruct (f x k) as [y k1].
  destruct (mapM f l k1) as [ys k2]. reflexivity.
Qed.

Lemma bind_ret_fst {A B : Type} (m : Eff A) (g : A -> B) (k : nat) :
  fst ((x <- m ;; ret (g x)) k) = g (fst (m k)).
Proof.
  unfold bind, ret. now destruct (m k).
Qed.

Lemma bind_ret_snd {A B : Type} (m : Eff A) (g : A -> B) (k : nat) :
  snd ((x <- m ;; ret (g x)) k) = snd (m k).
Proof.
  unfold bind, ret. now destruct (m k).
Qed.

(** ** Timestamps *)

Section Timestamps.

Variable clock : nat -> Z.
Hypothesis clock_mono : nondecreasing clock.

Lemma untouchedPast_later (k k' : nat) (n : Note) :
  (k <= k')%nat -> untouchedPast clock k n -> untouchedPast clock k' n.
Proof.
  intros Hk [H1 H2]. split; [exact H1|].
  intros j Hj. apply H2. lia.
Qed.

Lemma untouchedPast_all_later (k k' : nat) (l : list Note) :
  (k <= k')%nat ->
  Forall (untouchedPast clock k) l -> Forall (untouchedPast clock k') l.
Proof.
  intros Hk. apply Forall_impl. intros n. now apply untouchedPast_later.
Qed.

(** A [map] whose callback keeps the invariant of the note it is given
    keeps it for the whole array. *)
Lemma mapM_untouchedPast (f : Note -> Eff Note) :
  (forall n k, untouchedPast clock k n ->
               (k <= snd (f n k))%nat
               /\ untouchedPast clock (snd (f n k)) (fst (f n k))) ->
  forall l k, Forall (untouchedPast clock k) l ->
              (k <= snd (mapM f l k))%nat
              /\ Forall (untouchedPast clock (snd (mapM f l k)))
                        (fst (mapM f l k)).
Proof.
  intros Hf l. induction l as [|n l IH]; intros k Hl.
  - split; [simpl; lia | constructor].
  - inversion Hl as [|? ? Hn Hl']; subst.
    destruct (Hf n k Hn) as [Hk1 Hn1].
    rewrite mapM_cons. destruct (f n k) as [n1 k1]. simpl in Hk1, Hn1.
    destruct (IH k1 (untouchedPast_all_later k k1 l Hk1 Hl')) as [Hk2 Hl2].
    destruct (mapM f l k1) as [l2 k2]. simpl in *.
    split; [lia|]. constructor; [|exact Hl2].
    now apply (untouchedPast_later k1 k2).
Qed.

Lemma update_untouchedPast (i : string) (t c g : option string)
    (n : Note) (k : nat) :
  let f := fun n : Note =>
    if (id n =? i)%string
    then
      now <- Date_now clock ;;
      ret (spread (spread n (patch t c g))
             {| f_id := None; f_title := None;
                f_content := None; f_category := None;
                f_createdAt := None; f_updatedAt := Some now;
                f_archived := None |})
    else ret n in
  untouchedPast clock k n ->
  (k <= snd (f n k))%nat /\ untouchedPast clock (snd (f n k)) (fst (f n k)).
Proof.
  intros f [H1 H2]. subst f. cbv beta.
  destruct (id n =? i)%string; simpl.
  - split; [lia|]. split; simpl.
    + specialize (H2 k). lia.
    + intros j Hj. apply H2. lia.
  - split; [lia|]. split; [exact H1 | exact H2].
Qed.

Lemma toggle_untouchedPast (i : string) (n : Note) (k : nat) :
  let f := fun n : Note =>
    if (id n =? i)%string
    then now <- Date_now clock ;; ret (toggled n now)
    else ret n in
  untouchedPast clock k n ->
  (k <= snd (f n k))%nat /\ untouchedPast clock (snd (f n k)) (fst (f n k)).
Proof.
  intros f [H1 H2]. subst f. cbv beta.
  destruct (id n =? i)%string; simpl.
  - split; [lia|]. split; simpl.
    + specialize (H2 k). lia.
    + intros j Hj. apply H2. lia.
  - split; [lia|]. split; [exact H1 | exact H2].
Qed.

Lemma cascade_untouchedPast (k : nat) (old new : string) (l : list Note) :
  Forall (untouchedPast clock k) l ->
  Forall (untouchedPast clock k)
    (map (fun n => if (category n =? old)%string
                   then with_category new n else n) l).
Proof.
  intros H. apply Forall_map. eapply Forall_impl; [|exact H].
  intros n Hn. destruct (category n =? old)%string; exact Hn.
Qed.

Lemma step_untouchedPast (o : Op) (st : App) (k : nat) :
  Forall (untouchedPast clock k) (notes st) ->
  (k <= snd (step clock o st k))%nat
  /\ Forall (untouchedPast clock (snd (step clock o st k)))
            (notes (fst (step clock o st k))).
Proof.
  intros Hst. destruct o; simpl.
  - destruct (handleCreateNote_run clock src categoryHint st k)
      as (i & j & st' & Hj & Hrun & Hnotes & _).
    rewrite Hrun. simpl. rewrite Hnotes. split; [lia|].
    constructor.
    + split; simpl.
      * assert (clock j <= clock (S j)) by (apply clock_mono; lia). lia.
      * intros j' Hj'. apply clock_mono. lia.
    + apply (untouchedPast_all_later k); [lia | exact Hst].
  - unfold handleUpdateNote. rewrite bind_ret_fst, bind_ret_snd.
    exact (mapM_untouchedPast _
             (fun n k => update_untouchedPast i t c g n k) (notes st) k Hst).
  - split; [lia|]. unfold handleDeleteNote.
    assert (Forall (untouchedPast clock k)
              (filter (fun n => negb (id n =? i)%string) (notes st))).
    { rewrite Forall_forall in *. intros n Hn.
      apply filter_In in Hn. now apply Hst. }
    destruct (selectedNoteId st) as [s|]; [destruct (s =? i)%string|];
      exact H.
  - unfold handleArchiveToggle. rewrite bind_ret_fst, bind_ret_snd.
    exact (mapM_untouchedPast _
             (fun n k => toggle_untouchedPast i n k) (notes st) k Hst).
  - split; [lia|]. unfold addCategory.
    destruct (negb _); [exact Hst|].
    destruct (JS.includes _ _); exact Hst.
  - split; [lia|]. unfold renameCategory.
    destruct (negb _ || _); [exact Hst|].
    destruct (JS.includes _ _); [exact Hst|].
    destruct (activeCategory st =? oldName)%string; simpl;
      now apply cascade_untouchedPast.
  - split; [lia|]. unfold deleteCategory.
    destruct (protected name); [exact Hst|].
    destruct (activeCategory st =? name)%string; simpl;
      now apply cascade_untouchedPast.
  - split; [lia | exact Hst].
  - split; [lia | exact Hst].
  - split; [lia | exact Hst].
Qed.

Lemma run_untouchedPast (ops : list Op) (st : App) (k : nat) :
  Forall (untouchedPast clock k) (notes st) ->
  Forall (untouchedPast clock (snd (run clock ops st k)))
         (notes (fst (run clock ops st k))).
Proof.
  revert st k. induction ops as [|o ops IH]; intros st k Hst.
  - exact Hst.
  - simpl. unfold bind.
    destruct (step_untouchedPast o st k Hst) as [_ H].
    destruct (step clock o st k) as [st' k']. now apply IH.
Qed.

End Timestamps.

(** C3.  On a clock that never goes back, whatever actions the user takes
    from the empty collection (create, update of the editable fields,
    delete, archive toggle, category add, rename and delete, and the
    selections and searches in between), every note of the collection has
    [updatedAt >= createdAt]. *)
Theorem C3_updatedAt_not_before_createdAt
    (clock : nat -> Z) (ops : list Op) (k : nat) :
  nondecreasing clock ->
  Forall (fun n => updatedAt n >= createdAt n)
         (notes (fst (run clock ops initial k))).
Proof.
  intros Hmono.
  assert (H : Forall (untouchedPast clock (snd (run clock ops initial k)))
                     (notes (fst (run clock ops initial k)))).
  { apply run_untouchedPast; [exact Hmono | constructor]. }
  eapply Forall_impl; [|exact H]. intros n [Hn _]. exact Hn.
Qed.

(** ** The category registry *)

Lemma renameCategory_accepted (oldName newName : string) (st : App) :
  JS.trim newName <> "" ->
  protected oldName = false ->
  ~ In (JS.trim newName) (categories st) ->
  renameCategory oldName newName st
  = {| categories :=
         map (fun c => if (c =? oldName)%string then JS.trim newName else c)
             (categories st);
       activeCategory :=
         if (activeCategory st =? oldName)%string then JS.trim newName
         else activeCategory st;
       newCategoryName := newCategoryName st;
       notes :=
         map (fun n => if (category n =? oldName)%string
                       then with_category (JS.trim newName) n else n)
             (notes st);
       searchQuery := searchQuery st;
       selectedNoteId := selectedNoteId st |}.
Proof.
  intros Hne Hprot Hnew. unfold renameCategory.
  apply truthy_nonempty in Hne. apply includes_not_In in Hnew.
  rewrite Hne, Hprot, Hnew. simpl.
  destruct (activeCategory st =? oldName)%string; reflexivity.
Qed.

Lemma cascade_cascaded (oldName new : string) (l : list Note) :
  Forall2 (cascaded oldName new) l
    (map (fun n => if (category n =? oldName)%string
                   then with_category new n else n) l).
Proof.
  induction l as [|n l IH]; simpl; constructor; [|exact IH].
  unfold cascaded, sameButCategory.
  destruct (String.eqb_spec (category n) oldName) as [E|E]; simpl;
    intuition congruence.
Qed.

Lemma map_absent (oldName new : string) (l : list string) :
  ~ In oldName l ->
  map (fun c => if (c =? oldName)%string then new else c) l = l.
Proof.
  induction l as [|c l IH]; simpl; [reflexivity|].
  intros H. destruct (String.eqb_spec c oldName) as [E|E].
  - exfalso. apply H. now left.
  - f_equal. apply IH. tauto.
Qed.

(** C4.  A rename whose trimmed new name is already a category is rejected:
    the state after it is the state before it, so the category list, every
    note and the active view are unchanged. *)
Theorem C4_rename_to_existing_rejected
    (oldName newName : string) (st : App) :
  In (JS.trim newName) (categories st) ->
  renameCategory oldName newName st = st.
Proof.
  intros Hin. unfold renameCategory.
  apply includes_In in Hin. rewrite Hin.
  now destruct (negb _ || _).
Qed.

(** C5.  A rename that is accepted (the old name is not protected, the
    trimmed new name is not empty and not yet a category) gives the trimmed
    new name to the notes whose category is the old name, leaves the
    category of the others, and leaves every other field of every note,
    [updatedAt] included; the collection keeps its length and order. *)
Theorem C5_rename_cascades_category_only
    (oldName newName : string) (st : App) :
  JS.trim newName <> "" ->
  protected oldName = false ->
  ~ In (JS.trim newName) (categories st) ->
  Forall2 (cascaded oldName (JS.trim newName))
          (notes st) (notes (renameCategory oldName newName st)).
Proof.
  intros Hne Hprot Hnew.
  rewrite (renameCategory_accepted oldName newName st Hne Hprot Hnew).
  apply cascade_cascaded.
Qed.

(** C10.  A rename of a name that is not in the registry and not protected,
    to a trimmed new name that is not empty and not in the registry, leaves
    the category list as it is, still moves every note whose category is the
    old name to the new name, and moves the active view to the new name when
    it was the old name. *)
Theorem C10_rename_of_absent_category
    (oldName newName : string) (st : App) :
  ~ In oldName (categories st) ->
  protected oldName = false ->
  JS.trim newName <> "" ->
  ~ In (JS.trim newName) (categories st) ->
  categories (renameCategory oldName newName st) = categories st
  /\ Forall2 (cascaded oldName (JS.trim newName))
             (notes st) (notes (renameCategory oldName newName st))
  /\ (activeCategory st = oldName ->
      activeCategory (renameCategory oldName newName st) = JS.trim newName)
  /\ (activeCategory st <> oldName ->
      activeCategory (renameCategory oldName newName st) = activeCategory st).
Proof.
  intros Habs Hprot Hne Hnew.
  rewrite (renameCategory_accepted oldName newName st Hne Hprot Hnew).
  simpl. split; [|split; [|split]].
  - now apply map_absent.
  - apply cascade_cascaded.
  - intros E. apply String.eqb_eq in E. now rewrite E.
  - intros E. apply String.eqb_neq in E. now rewrite E.
Qed.

Lemma rename_keeps_protected (p oldName newName : string) (st : App) :
  protected p = true ->
  In p (categories st) ->
  In p (categories (renameCategory oldName newName st)).
Proof.
  intros Hp Hin. unfold renameCategory.
  destruct (protected oldName) eqn:Hold.
  - now rewrite orb_true_r.
  - rewrite orb_false_r. destruct (negb _); [exact Hin|].
    destruct (JS.includes _ _); [exact Hin|].
    assert (In p (map (fun c => if (c =? oldName)%string
                                then JS.trim newName else c) (categories st))).
    { apply in_map_iff. exists p. split; [|exact Hin].
      destruct (String.eqb_spec p oldName) as [E|E]; [|reflexivity].
      congruence. }
    destruct (activeCategory st =? oldName)%string; exact H.
Qed.

Lemma delete_keeps_protected (p name : string) (st : App) :
  protected p = true ->
  In p (categories st) ->
  In p (categories (deleteCategory name st)).
Proof.
  intros Hp Hin. unfold deleteCategory.
  destruct (protected name) eqn:Hname; [exact Hin|].
  assert (In p (filter (fun c => negb (c =? name)%string) (categories st))).
  { apply filter_In. split; [exact Hin|].
    apply negb_true_iff, String.eqb_neq. congruence. }
  destruct (activeCategory st =? name)%string; exact H.
Qed.

Lemma step_keeps_protected (clock : nat -> Z) (p : string) (o : Op)
    (st : App) (k : nat) :
  protected p = true ->
  In p (categories st) ->
  In p (categories (fst (step clock o st k))).
Proof.
  intros Hp Hin. destruct o; simpl.
  - destruct (handleCreateNote_run clock src categoryHint st k)
      as (i & j & st' & _ & Hrun & _ & [Hc|Hc] & _);
      rewrite Hrun; simpl; rewrite Hc; [exact Hin|].
    apply in_or_app. now left.
  - unfold handleUpdateNote. now rewrite bind_ret_fst.
  - unfold handleDeleteNote.
    destruct (selectedNoteId st) as [s|]; [destruct (s =? i)%string|];
      exact Hin.
  - unfold handleArchiveToggle. now rewrite bind_ret_fst.
  - unfold addCategory. destruct (negb _); [exact Hin|].
    destruct (JS.includes _ _); [exact Hin|].
    simpl. apply in_or_app. now left.
  - now apply rename_keeps_protected.
  - now apply delete_keeps_protected.
  - exact Hin.
  - exact Hin.
  - exact Hin.
Qed.

Lemma run_keeps_protected (clock : nat -> Z) (p : string) (ops : list Op)
    (st : App) (k : nat) :
  protected p = true ->
  In p (categories st) ->
  In p (categories (fst (run clock ops st k))).
Proof.
  intros Hp. revert st k.
  induction ops as [|o ops IH]; intros st k Hin; [exact Hin|].
  simpl. unfold bind.
  pose proof (step_keeps_protected clock p o st k Hp Hin) as H.
  destruct (step clock o st k) as [st' k']. now apply IH.
Qed.

(** C7.  From the default registry, whatever the user does (category add,
    rename and delete, and the note actions in between), [All Notes] and
    [Archive] are still in the registry; a rename or a delete of either name
    is rejected and leaves the state as it is. *)
Theorem C7_protected_categories_remain
    (clock : nat -> Z) (ops : list Op) (k : nat) :
  In "All Notes" (categories (fst (run clock ops initial k)))
  /\ In "Archive" (categories (fst (run clock ops initial k)))
  /\ (forall (newName : string) (st : App),
         renameCategory "All Notes" newName st = st
         /\ renameCategory "Archive" newName st = st)
  /\ (forall st : App,
         deleteCategory "All Notes" st = st
         /\ deleteCategory "Archive" st = st).
Proof.
  split; [|split; [|split]].
  - apply run_keeps_protected; [reflexivity | simpl; auto].
  - apply run_keeps_protected; [reflexivity | simpl; auto 6].
  - intros newName st. unfold renameCategory.
    change (protected "All Notes") with true.
    change (protected "Archive") with true.
    now rewrite orb_true_r.
  - intros st. split; reflexivity.
Qed.

(** ** Archive toggling *)

Lemma mapM_Forall2 {A B : Type} (R : A -> B -> Prop) (f : A -> Eff B) :
  (forall x k, R x (fst (f x k))) ->
  forall l k, Forall2 R l (fst (mapM f l k)).
Proof.
  intros Hf l. induction l as [|x l IH]; intros k.
  - constructor.
  - rewrite mapM_cons. specialize (Hf x k).
    destruct (f x k) as [y k1]. specialize (IH k1).
    destruct (mapM f l k1) as [ys k2]. now constructor.
Qed.

Lemma Forall2_compose {A B C : Type}
    (R : A -> B -> Prop) (S : B -> C -> Prop) (T : A -> C -> Prop) :
  (forall a b c, R a b -> S b c -> T a c) ->
  forall l1 l2 l3, Forall2 R l1 l2 -> Forall2 S l2 l3 -> Forall2 T l1 l3.
Proof.
  intros HT l1 l2 l3 H12. revert l3.
  induction H12 as [|a b l1 l2 Hab _ IH]; intros l3 H23;
    inversion H23; subst; constructor; eauto.
Qed.

Lemma handleArchiveToggle_notes (clock : nat -> Z) (i : string)
    (st : App) (k : nat) :
  Forall2 (toggledBy i)
          (notes st) (notes (fst (handleArchiveToggle clock i st k))).
Proof.
  unfold handleArchiveToggle. rewrite bind_ret_fst. simpl.
  apply mapM_Forall2. intros n k'. unfold toggledBy.
  destruct (id n =? i)%string; simpl; eauto.
Qed.

(** Archiving overwrites the category; unarchiving keeps the stored
    category, or [Personal] when the stored category is empty. *)
Lemma toggled_category (n : Note) (now : Z) :
  (archived n = false -> category (toggled n now) = "Archive")
  /\ (archived n = true ->
      category (toggled n now) = JS.or_else (category n) "Personal").
Proof.
  unfold toggled. simpl. split; intros ->; reflexivity.
Qed.

Lemma toggled_twice (n : Note) (t1 t2 : Z) :
  toggled (toggled n t1) t2
  = {| id := id n;
       title := title n;
       content := content n;
       category := "Archive";
       createdAt := createdAt n;
       updatedAt := t2;
       archived := archived n |}.
Proof.
  unfold toggled. simpl. now destruct (archived n).
Qed.

(** Two toggles in a row on the same id give the note its [archived] flag
    back, and the category [Archive] whatever its category was. *)
Lemma archive_toggle_twice (clock : nat -> Z) (i : string)
    (st : App) (k : nat) :
  Forall2 (toggledTwiceBy i)
    (notes st)
    (notes (fst ((st1 <- handleArchiveToggle clock i st ;;
                  handleArchiveToggle clock i st1) k))).
Proof.
  unfold bind at 1.
  pose proof (handleArchiveToggle_notes clock i st k) as H1.
  destruct (handleArchiveToggle clock i st k) as [st1 k1]. simpl fst in H1.
  pose proof (handleArchiveToggle_notes clock i st1 k1) as H2.
  revert H1 H2. apply Forall2_compose.
  intros a b c. unfold toggledBy, toggledTwiceBy.
  destruct (id a =? i)%string eqn:E.
  - intros [t1 ->]. simpl. rewrite E.
    intros [t2 ->]. exists t2. apply toggled_twice.
  - intros ->. rewrite E. auto.
Qed.

(** C1, on the code.  A note created under [Work] and then toggled twice
    is not archived, as it was, but its category is [Archive], not [Work]:
    the first toggle overwrites the category and the second finds only
    [Archive] to keep. *)
Theorem C1_toggle_twice_category_is_Archive (clock : nat -> Z) :
  map (fun n => (id n, category n, archived n))
      (notes (fst (run clock [CreateNote (RandomUUID "n1") (Some "Work")]
                       initial 0%nat)))
  = [("n1", "Work", false)]
  /\ map (fun n => (id n, category n, archived n))
         (notes (fst (run clock [CreateNote (RandomUUID "n1") (Some "Work");
                                 ArchiveToggle "n1"]
                          initial 0%nat)))
     = [("n1", "Archive", true)]
  /\ map (fun n => (id n, category n, archived n))
         (notes (fst (run clock [CreateNote (RandomUUID "n1") (Some "Work");
                                 ArchiveToggle "n1"; ArchiveToggle "n1"]
                          initial 0%nat)))
     = [("n1", "Archive", false)].
Proof.
  repeat split.
Qed.

(** ** The examples of the specification *)

Example search_plan :
  filteredNotes [noteA; noteB] "All Notes" "plan" = [noteB].
Proof. reflexivity. Qed.

Example archive_then_select (clock : nat -> Z) :
  let st := {| categories := DEFAULT_CATEGORIES;
               activeCategory := "All Notes";
               newCategoryName := "";
               notes := [noteA];
               searchQuery := "";
               selectedNoteId := None |} in
  let st' := fst (handleArchiveToggle clock "A" st 0%nat) in
  map id (filteredNotes (notes st') "Archive" "") = ["A"]
  /\ filteredNotes (notes st') "Personal" "" = [].
Proof. split; reflexivity. Qed.

Example equal_times_keep_storage_order :
  map id (filteredNotes
            [mkNote "x" "" "" "Work" 1 7 false;
             mkNote "y" "" "" "Work" 1 9 false;
             mkNote "z" "" "" "Work" 1 7 false] "Work" "")
  = ["y"; "x"; "z"].
Proof. reflexivity. Qed.

(** ** Concrete instances *)

Lemma ticking_nondecreasing : nondecreasing ticking.
Proof.
  unfold nondecreasing, ticking. intros i j Hij. lia.
Qed.

Lemma C2_witness :
  In noteC (filteredNotes (notes desk) "Archive" "")
  /\ ("Archive" <> "Archive" -> archived noteC = false)
  /\ ("Archive" = "Archive" -> archived noteC = true).
Proof.
  assert (H : In noteC (filteredNotes (notes desk) "Archive" ""))
    by (vm_compute; left; reflexivity).
  split; [exact H|].
  exact (C2_view_archive_partition (notes desk) "Archive" "" noteC H).
Defined.

Lemma C3_witness :
  nondecreasing ticking
  /\ Forall (fun n => updatedAt n >= createdAt n)
       (notes (fst (run ticking
                      [CreateNote (RandomUUID "n1") None;
                       UpdateNote "n1" (Some "Groceries") None None;
                       CreateNote (NoRandomUUID "0.25") (Some "Work");
                       ArchiveToggle "n1";
                       RenameCategory "Work" "Job";
                       DeleteCategory "Job"]
                      initial 0%nat))).
Proof.
  split; [exact ticking_nondecreasing|].
  apply (C3_updatedAt_not_before_createdAt ticking).
  unfold nondecreasing, ticking. intros i j Hij. lia.
Defined.

Lemma C4_witness :
  In (JS.trim " Ideas ") (categories desk)
  /\ renameCategory "Work" " Ideas " desk = desk.
Proof.
  assert (H : In (JS.trim " Ideas ") (categories desk))
    by (vm_compute; auto).
  split; [exact H|].
  exact (C4_rename_to_existing_rejected "Work" " Ideas " desk H).
Defined.

Lemma C5_witness :
  Forall2 (cascaded "Work" (JS.trim " Job"))
          (notes desk) (notes (renameCategory "Work" " Job" desk)).
Proof.
  apply (C5_rename_cascades_category_only "Work" " Job" desk).
  - vm_compute. discriminate.
  - reflexivity.
  - vm_compute. intuition discriminate.
Defined.

Lemma C6_witness :
  exists n : Note,
    notes (fst (handleCreateNote ticking (RandomUUID "n1") (Some "Archive")
                  desk 0%nat))
    = n :: notes desk
    /\ (Some "Archive" = None \/ Some "Archive" = Some ""
        \/ Some "Archive" = Some "All Notes" ->
        category n = "Personal" /\ archived n = false)
    /\ (Some "Archive" = Some "Archive" ->
        category n = "Archive" /\ archived n = true)
    /\ createdAt n <= updatedAt n
    /\ exists j : nat,
         createdAt n = ticking j /\ updatedAt n = ticking (S j)
         /\ (ticking j = ticking (S j) -> createdAt n = updatedAt n).
Proof.
  apply (C6_created_note_defaults ticking (RandomUUID "n1") (Some "Archive")
           desk 0%nat).
  unfold nondecreasing, ticking. intros i j Hij. lia.
Defined.

Lemma C8_witness :
  StronglySorted updatedDesc (filteredNotes (notes desk) "All Notes" "")
  /\ filteredNotes (notes desk) "All Notes" "" = [noteD; noteB; noteA].
Proof.
  split; [|reflexivity].
  exact (proj1 (C8_view_sorted_stable_deterministic
                  (notes desk) "All Notes" "")).
Defined.

Lemma C9_witness :
  displayTitle (mkNote "E" "" "" "Personal" 6 6 false) = "Untitled note".
Proof.
  apply (C9_created_note_title ticking (RandomUUID "n1") None desk 0%nat).
  reflexivity.
Defined.

Lemma C10_witness :
  categories (renameCategory "Travel" "Trips" desk) = categories desk
  /\ Forall2 (cascaded "Travel" (JS.trim "Trips"))
             (notes desk) (notes (renameCategory "Travel" "Trips" desk))
  /\ (activeCategory desk = "Travel" ->
      activeCategory (renameCategory "Travel" "Trips" desk) = JS.trim "Trips")
  /\ (activeCategory desk <> "Travel" ->
      activeCategory (renameCategory "Travel" "Trips" desk)
      = activeCategory desk).
Proof.
  apply (C10_rename_of_absent_category "Travel" "Trips" desk).
  - vm_compute. intuition discriminate.
  - reflexivity.
  - vm_compute. discriminate.
  - vm_compute. intuition discriminate.
Defined.

(** ** Where the code departs from the specification *)

(** C6: on a clock that moves between the two readings of [createNote], the
    created note has [createdAt <> updatedAt]. *)
Lemma C6_counterexample :
  nondecreasing ticking
  /\ map (fun n => (createdAt n, updatedAt n))
         (notes (fst (handleCreateNote ticking (RandomUUID "n1") None
                        initial 0%nat)))
     = [(1700000000000, 1700000000001)]
  /\ ~ (forall n : Note,
          In n (notes (fst (handleCreateNote ticking (RandomUUID "n1") None
                              initial 0%nat))) ->
          createdAt n = updatedAt n).
Proof.
  split; [exact ticking_nondecreasing|].
  split; [reflexivity|].
  intros H. specialize (H _ (or_introl eq_refl)). discriminate H.
Qed.

(** C9: the note that the create action stores has the title
    [Untitled note], not the empty title. *)
Lemma C9_counterexample :
  map title
      (notes (fst (handleCreateNote ticking (RandomUUID "n1") None
                     initial 0%nat)))
  = ["Untitled note"]
  /\ ~ (forall n : Note,
          In n (notes (fst (handleCreateNote ticking (RandomUUID "n1") None
                              initial 0%nat))) ->
          title n = "").
Proof.
  split; [reflexivity|].
  intros H. specialize (H _ (or_introl eq_refl)). discriminate H.
Qed.

(** * Further properties of the code *)

(** ** More on the View Projector *)

Lemma sorted_filter {A : Type} (key : A -> Z) (p : A -> bool) (l : list A) :
  StronglySorted (keyDesc key) l -> StronglySorted (keyDesc key) (filter p l).
Proof.
  induction 1 as [|x l Hs IH Hx]; simpl; [constructor|].
  destruct (p x); [|exact IH].
  constructor; [exact IH|].
  rewrite Forall_forall in *. intros y Hy.
  apply filter_In in Hy. now apply Hx.
Qed.

Lemma filter_swap {A : Type} (p q : A -> bool) (l : list A) :
  filter p (filter q l) = filter q (filter p l).
Proof.
  rewrite !filter_filter. apply filter_ext. intros a. apply andb_comm.
Qed.

(** The stable sort commutes with any filter. *)
Lemma sort_filter {A : Type} (key : A -> Z) (p : A -> bool) (l : list A) :
  JS.sort (byKeyDesc key) (filter p l)
  = filter p (JS.sort (byKeyDesc key) l).
Proof.
  apply (sorted_stable_unique key).
  - apply sort_sorted.
  - apply sorted_filter, sort_sorted.
  - intros t. rewrite sort_stable.
    rewrite (filter_swap (fun a => key a =? t) p (JS.sort _ l)).
    rewrite sort_stable. apply filter_swap.
Qed.

Lemma filter_implied {A : Type} (p q : A -> bool) (l : list A) :
  (forall a, p a = true -> q a = true) ->
  filter p (filter q l) = filter p l.
Proof.
  intros H. rewrite filter_filter. apply filter_ext. intros a.
  destruct (p a) eqn:E; [now rewrite (H a E) | apply andb_false_r].
Qed.

Lemma filter_partition {A : Type} (p : A -> bool) (l : list A) :
  Permutation (filter p l ++ filter (fun a => negb (p a)) l)%list l.
Proof.
  induction l as [|a l IH]; simpl; [constructor|].
  destruct (p a); simpl.
  - now constructor.
  - rewrite <- Permutation_middle. now constructor.
Qed.

(** The projected list holds the visible notes of the collection and
    nothing else, each as many times as the collection holds it. *)
Theorem view_holds_the_visible_notes (ns : list Note) (ac q : string) :
  Permutation (filteredNotes ns ac q) (filter (visible ac q) ns)
  /\ (List.length (filteredNotes ns ac q) <= List.length ns)%nat.
Proof.
  rewrite filteredNotes_sort_visible.
  assert (H : Permutation
                (JS.sort sortNotesByUpdatedAtDesc (filter (visible ac q) ns))
                (filter (visible ac q) ns))
    by apply (sort_perm updatedAt).
  split; [exact H|].
  rewrite (Permutation_length H). apply filter_length_le.
Qed.

(** With no search, every note of the collection is shown in exactly one of
    the two views [All Notes] and [Archive]. *)
Theorem all_notes_and_archive_split_the_collection (ns : list Note) :
  Permutation
    (filteredNotes ns "All Notes" "" ++ filteredNotes ns "Archive" "")%list ns
  /\ (forall n : Note,
         ~ (In n (filteredNotes ns "All Notes" "")
            /\ In n (filteredNotes ns "Archive" ""))).
Proof.
  split.
  - rewrite !filteredNotes_sort_visible.
    rewrite (sort_perm updatedAt (filter (visible "All Notes" "") ns)).
    rewrite (sort_perm updatedAt (filter (visible "Archive" "") ns)).
    rewrite (filter_ext (visible "All Notes" "")
                        (fun n => negb (archived n))).
    + rewrite (filter_ext (visible "Archive" "") (fun n => archived n)).
      * rewrite Permutation_app_comm. apply filter_partition.
      * intros n. unfold visible. simpl. apply andb_true_r.
    + intros n. unfold visible. simpl. apply andb_true_r.
  - intros n [H1 H2].
    apply filteredNotes_In in H1. apply filteredNotes_In in H2.
    destruct H1 as [_ H1]. destruct H2 as [_ H2].
    unfold visible, inBase, matches in *. simpl in *.
    destruct (archived n); discriminate.
Qed.

Lemma visible_in_all_notes (c q : string) (n : Note) :
  c <> "Archive" ->
  visible c q n = true -> visible "All Notes" "" n = true.
Proof.
  intros Hc Hv. unfold visible in *.
  apply andb_true_iff in Hv. destruct Hv as [Hb _].
  apply inBase_archived in Hb.
  apply String.eqb_neq in Hc. rewrite Hc in Hb.
  unfold inBase, matches. simpl. now rewrite Hb.
Qed.

(** The view of a category other than [Archive], with or without a search,
    is the [All Notes] view with the notes of other categories and the
    notes that miss the search left out: the notes that stay keep their
    order. *)
Theorem category_view_filters_all_notes_view
    (ns : list Note) (c q : string) :
  c <> "Archive" ->
  filteredNotes ns c q
  = filter (visible c q) (filteredNotes ns "All Notes" "").
Proof.
  intros Hc. rewrite !filteredNotes_sort_visible.
  unfold sortNotesByUpdatedAtDesc.
  change (fun a b : Note => updatedAt b - updatedAt a)
    with (byKeyDesc updatedAt).
  rewrite <- sort_filter. f_equal. symmetry.
  apply filter_implied. intros n. now apply visible_in_all_notes.
Qed.

(** A search keeps the order of the view it narrows: the result is the
    unsearched view of the same category without the notes that miss the
    query. *)
Theorem search_filters_the_view (ns : list Note) (ac q : string) :
  filteredNotes ns ac q = filter (matches q) (filteredNotes ns ac "").
Proof.
  rewrite !filteredNotes_sort_visible.
  unfold sortNotesByUpdatedAtDesc.
  change (fun a b : Note => updatedAt b - updatedAt a)
    with (byKeyDesc updatedAt).
  rewrite <- sort_filter. f_equal.
  rewrite filter_filter. apply filter_ext. intros n.
  unfold visible. simpl. now rewrite andb_true_r.
Qed.

(** ** Strings: white space, substrings and case *)

Lemma blank_trimStart (s : string) : blank (JS.trimStart s) = blank s.
Proof.
  induction s as [|c s IH]; simpl; [reflexivity|].
  destruct (JS.is_space c) eqn:E; simpl; [exact IH | now rewrite E].
Qed.

Lemma trimEnd_empty (s : string) : JS.trimEnd s = "" <-> blank s = true.
Proof.
  induction s as [|c s IH]; simpl; [tauto|].
  destruct (JS.trimEnd s) as [|d r].
  - destruct (JS.is_space c); simpl.
    + rewrite <- IH. tauto.
    + split; discriminate.
  - split; [discriminate|]. intros H. apply andb_true_iff in H.
    destruct H as [_ H]. apply IH in H. discriminate.
Qed.

Lemma trim_empty (s : string) : JS.trim s = "" <-> blank s = true.
Proof.
  unfold JS.trim. now rewrite trimEnd_empty, blank_trimStart.
Qed.

Lemma truthy_trim (s : string) : JS.truthy (JS.trim s) = negb (blank s).
Proof.
  destruct (blank s) eqn:E.
  - apply trim_empty in E. now rewrite E.
  - destruct (JS.trim s) eqn:T; [|reflexivity].
    apply trim_empty in T. congruence.
Qed.









Lemma is_space_lower (c : ascii) :
  JS.is_space (JS.lower_char c) = JS.is_space c.
Proof.
  destruct c as [[] [] [] [] [] [] [] []]; reflexivity.
Qed.

Lemma blank_lower (s : string) : blank (JS.toLowerCase s) = blank s.
Proof.
  induction s as [|c s IH]; simpl; [reflexivity|].
  now rewrite is_space_lower, IH.
Qed.


Lemma matches_blank (q : string) (n : Note) :
  blank q = true -> matches q n = true.
Proof.
  intros H. unfold matches. now rewrite truthy_trim, H.
Qed.



(** A query of white space only (spaces, tabs, line breaks) searches for
    nothing: the view is the one of the empty query. *)
Theorem blank_query_filters_nothing (ns : list Note) (ac q : string) :
  blank q = true ->
  filteredNotes ns ac q = filteredNotes ns ac "".
Proof.
  intros Hq. rewrite !filteredNotes_sort_visible. f_equal.
  apply filter_ext. intros n. unfold visible.
  now rewrite (matches_blank q n Hq).
Qed.


(** The search does not see the case of the query: two queries with the
    same lower-case form give the same view. *)
Theorem query_case_is_ignored (ns : list Note) (ac q1 q2 : string) :
  JS.toLowerCase q1 = JS.toLowerCase q2 ->
  filteredNotes ns ac q1 = filteredNotes ns ac q2.
Proof.
  intros Hq. rewrite !filteredNotes_sort_visible. f_equal.
  apply filter_ext. intros n. unfold visible, matches.
  rewrite !truthy_trim, <- (blank_lower q1), <- (blank_lower q2), Hq.
  reflexivity.
Qed.

(** ** More on the note handlers *)

Lemma set_notes_same (st : App) : set_notes (fun _ => notes st) st = st.
Proof.
  now destruct st.
Qed.

Lemma mapM_untouched {A : Type} (test : A -> bool) (g : A -> Eff A)
    (l : list A) (k : nat) :
  (forall a, In a l -> test a = false) ->
  mapM (fun a => if test a then g a else ret a) l k = (l, k).
Proof.
  induction l as [|a l IH]; intros H; [reflexivity|].
  rewrite mapM_cons, (H a (or_introl eq_refl)).
  unfold ret at 1. rewrite IH; [reflexivity|].
  intros b Hb. apply H. now right.
Qed.

Lemma filter_all {A : Type} (p : A -> bool) (l : list A) :
  (forall a, In a l -> p a = true) -> filter p l = l.
Proof.
  induction l as [|a l IH]; intros H; simpl; [reflexivity|].
  rewrite (H a (or_introl eq_refl)). f_equal. apply IH.
  intros b Hb. apply H. now right.
Qed.

(** An id that no note carries: update and archive toggle leave the state
    as it is and do not read the clock; delete leaves the collection as it
    is, and the whole state when that id is not the selected one. *)
Theorem unknown_id_changes_nothing
    (clock : nat -> Z) (i : string) (fields : Fields) (st : App) (k : nat) :
  (forall n, In n (notes st) -> id n <> i) ->
  handleUpdateNote clock i fields st k = (st, k)
  /\ handleArchiveToggle clock i st k = (st, k)
  /\ notes (handleDeleteNote i st) = notes st
  /\ (selectedNoteId st <> Some i -> handleDeleteNote i st = st).
Proof.
  intros H.
  assert (Hf : forall n, In n (notes st) -> (id n =? i)%string = false)
    by (intros n Hn; apply String.eqb_neq; now apply H).
  assert (Hfilter : filter (fun n => negb (id n =? i)%string) (notes st)
                    = notes st).
  { apply filter_all. intros n Hn. now rewrite (Hf n Hn). }
  split; [|split; [|split]].
  - unfold handleUpdateNote, bind.
    rewrite (mapM_untouched (fun n => (id n =? i)%string)); [|exact Hf].
    unfold ret. now rewrite set_notes_same.
  - unfold handleArchiveToggle, bind.
    rewrite (mapM_untouched (fun n => (id n =? i)%string)); [|exact Hf].
    unfold ret. now rewrite set_notes_same.
  - unfold handleDeleteNote.
    destruct (selectedNoteId st) as [s|]; [destruct (s =? i)%string|];
      simpl; exact Hfilter.
  - intros Hsel. unfold handleDeleteNote.
    assert (E : set_notes (filter (fun n => negb (id n =? i)%string)) st = st).
    { unfold set_notes. rewrite Hfilter. now destruct st. }
    rewrite E. destruct (selectedNoteId st) as [s|]; [|reflexivity].
    destruct (String.eqb_spec s i) as [->|_]; [congruence | reflexivity].
Qed.

Lemma find_filter_other (s i : string) (l : list Note) :
  s <> i ->
  find (fun n => (id n =? s)%string)
       (filter (fun n => negb (id n =? i)%string) l)
  = find (fun n => (id n =? s)%string) l.
Proof.
  intros Hsi. induction l as [|n l IH]; simpl; [reflexivity|].
  destruct (String.eqb_spec (id n) i) as [Ei|Ei]; simpl.
  - destruct (String.eqb_spec (id n) s) as [Es|Es]; [congruence | exact IH].
  - destruct (id n =? s)%string; [reflexivity | exact IH].
Qed.

(** Deleting a note removes the notes with that id and no other; the
    deleted id is never left selected, and a selection of another note
    still finds the same note. *)
Theorem delete_removes_only_that_note (i : string) (st : App) :
  (forall n, In n (notes (handleDeleteNote i st))
             <-> In n (notes st) /\ id n <> i)
  /\ selectedNoteId (handleDeleteNote i st) <> Some i
  /\ (selectedNoteId st <> Some i ->
      selectedNoteId (handleDeleteNote i st) = selectedNoteId st
      /\ selectedNote (handleDeleteNote i st) = selectedNote st).
Proof.
  assert (Hn : notes (handleDeleteNote i st)
               = filter (fun n => negb (id n =? i)%string) (notes st)).
  { unfold handleDeleteNote.
    destruct (selectedNoteId st) as [s|]; [destruct (s =? i)%string|];
      reflexivity. }
  split; [|split].
  - intros n. rewrite Hn, filter_In, negb_true_iff, String.eqb_neq. tauto.
  - unfold handleDeleteNote.
    destruct (selectedNoteId st) as [s|] eqn:Es.
    + destruct (String.eqb_spec s i) as [->|Hne]; simpl.
      * discriminate.
      * rewrite Es. congruence.
    + simpl. rewrite Es. discriminate.
  - intros Hsel.
    assert (Hs : selectedNoteId (handleDeleteNote i st) = selectedNoteId st).
    { unfold handleDeleteNote.
      destruct (selectedNoteId st) as [s|] eqn:Es; [|simpl; now rewrite Es].
      destruct (String.eqb_spec s i) as [->|Hne];
        [congruence | simpl; now rewrite Es]. }
    split; [exact Hs|].
    unfold selectedNote. rewrite Hs, Hn.
    destruct (selectedNoteId st) as [s|]; [|reflexivity].
    apply find_filter_other. congruence.
Qed.

(** An edit of the title, the content or the category touches the notes
    with the given id only, and of those only the fields it names and
    [updatedAt]: id, creation time and archive flag stay, and so do the
    length and order of the collection. *)
Theorem update_touches_only_named_fields
    (clock : nat -> Z) (i : string) (t c g : option string)
    (st : App) (k : nat) :
  Forall2 (updatedBy i t c g)
    (notes st) (notes (fst (handleUpdateNote clock i (patch t c g) st k)))
  /\ categories (fst (handleUpdateNote clock i (patch t c g) st k))
     = categories st
  /\ selectedNoteId (fst (handleUpdateNote clock i (patch t c g) st k))
     = selectedNoteId st.
Proof.
  unfold handleUpdateNote. rewrite bind_ret_fst. simpl.
  split; [|split; reflexivity].
  apply mapM_Forall2. intros n k'. unfold updatedBy.
  destruct (id n =? i)%string; simpl; auto 10.
Qed.


Lemma mapM_keeps {A : Type} (P : nat -> A -> Prop) (f : A -> Eff A) :
  (forall k k' a, (k <= k')%nat -> P k a -> P k' a) ->
  (forall a k, P k a ->
               (k <= snd (f a k))%nat /\ P (snd (f a k)) (fst (f a k))) ->
  forall l k, Forall (P k) l ->
              (k <= snd (mapM f l k))%nat
              /\ Forall (P (snd (mapM f l k))) (fst (mapM f l k)).
Proof.
  intros Hmono Hf l. induction l as [|a l IH]; intros k Hl.
  - split; [simpl; lia | constructor].
  - inversion Hl as [|? ? Ha Hl']; subst.
    destruct (Hf a k Ha) as [Hk1 Ha1].
    rewrite mapM_cons. destruct (f a k) as [a1 k1]. simpl in Hk1, Ha1.
    assert (Hl1 : Forall (P k1) l)
      by (eapply Forall_impl; [|exact Hl']; intros b; now apply Hmono).
    destruct (IH k1 Hl1) as [Hk2 Hl2].
    destruct (mapM f l k1) as [l2 k2]. simpl in *.
    split; [lia|]. constructor; [|exact Hl2]. now apply (Hmono k1 k2).
Qed.

Lemma mapM_Forall2_from {A B : Type} (R : A -> B -> Prop) (f : A -> Eff B)
    (l : list A) (k : nat) :
  (forall a j, (j <= snd (f a j))%nat) ->
  (forall a j, In a l -> (k <= j)%nat -> R a (fst (f a j))) ->
  Forall2 R l (fst (mapM f l k)).
Proof.
  intros Hk. revert k. induction l as [|a l IH]; intros k HR.
  - constructor.
  - rewrite mapM_cons.
    pose proof (HR a k (or_introl eq_refl) (Nat.le_refl k)) as Ha.
    pose proof (Hk a k) as Hk1.
    destruct (f a k) as [b k1]. simpl in Ha, Hk1.
    assert (IH1 : Forall2 R l (fst (mapM f l k1))).
    { apply IH. intros x j Hx Hj. apply HR; [now right | lia]. }
    destruct (mapM f l k1) as [bs k2]. now constructor.
Qed.

Lemma Forall2_In_r {A B : Type} (R : A -> B -> Prop) (l : list A)
    (l' : list B) :
  Forall2 R l l' -> Forall2 (fun a b => R a b /\ In b l') l l'.
Proof.
  induction 1 as [|a b l l' Hab _ IH]; constructor.
  - split; [exact Hab | now left].
  - eapply Forall2_impl; [|exact IH]. intros x y [Hxy Hy].
    split; [exact Hxy | now right].
Qed.

Lemma Forall2_In_source {A B : Type} (R : A -> B -> Prop) (l : list A)
    (l' : list B) (b : B) :
  Forall2 R l l' -> In b l' -> exists a, In a l /\ R a b.
Proof.
  induction 1 as [|x y l l' Hxy _ IH]; intros Hb; [destruct Hb|].
  destruct Hb as [->|Hb].
  - exists x. split; [now left | exact Hxy].
  - destruct (IH Hb) as (a & Ha & HR). exists a. split; [now right | exact HR].
Qed.

Lemma insert_top {A : Type} (key : A -> Z) (x : A) (l : list A) :
  (forall y, In y l -> key y <= key x) ->
  JS.insert (byKeyDesc key) x l = x :: l.
Proof.
  destruct l as [|y l]; intros H; simpl; [reflexivity|].
  assert (key y <= key x) by (apply H; now left).
  unfold byKeyDesc. destruct (Z.leb_spec (key y - key x) 0); [reflexivity | lia].
Qed.

Lemma handleCreateNote_state (clock : nat -> Z) (src : IdSource)
    (hint : option string) (st : App) (k : nat) :
  exists (i : string) (j : nat),
    (k <= j)%nat
    /\ handleCreateNote clock src hint st k
       = ({| categories :=
               if negb (JS.includes (categories st) (hintedCategory hint))
                  && negb (hintedCategory hint =? "Archive")%string
               then (categories st ++ [hintedCategory hint])%list
               else categories st;
             activeCategory := activeCategory st;
             newCategoryName := newCategoryName st;
             notes :=
               {| id := i;
                  title := "Untitled note";
                  content := "";
                  category := hintedCategory hint;
                  createdAt := clock j;
                  updatedAt := clock (S j);
                  archived := (hintedCategory hint =? "Archive")%string |}
               :: notes st;
             searchQuery := searchQuery st;
             selectedNoteId := Some i |},
          S (S j)).
Proof.
  unfold handleCreateNote.
  destruct (createNote_run clock src (Some "Untitled note") (Some "")
              (Some (hintedCategory hint)) k) as (i & j & Hj & Hrun).
  exists i, j. split; [exact Hj|].
  unfold bind at 1. rewrite Hrun. simpl pick. cbv beta iota. unfold ret.
  f_equal. simpl.
  destruct (negb _ && negb _); reflexivity.
Qed.

Section MoreTimestamps.

Variable clock : nat -> Z.
Hypothesis clock_mono : nondecreasing clock.

Lemma notAhead_later (k k' : nat) (n : Note) :
  (k <= k')%nat -> notAhead clock k n -> notAhead clock k' n.
Proof.
  intros Hk H j Hj. apply H. lia.
Qed.

Lemma stamped_notAhead (test : Note -> bool) (g : Note -> Z -> Note)
    (n : Note) (k : nat) :
  (forall m now, updatedAt (g m now) = now) ->
  let f := fun n : Note =>
    if test n then now <- Date_now clock ;; ret (g n now) else ret n in
  notAhead clock k n ->
  (k <= snd (f n k))%nat /\ notAhead clock (snd (f n k)) (fst (f n k)).
Proof.
  intros Hg f Hn. subst f. cbv beta. destruct (test n); simpl.
  - split; [lia|]. intros j Hj. rewrite Hg. apply clock_mono. lia.
  - split; [lia | exact Hn].
Qed.

Lemma cascade_notAhead (k : nat) (old new : string) (l : list Note) :
  Forall (notAhead clock k) l ->
  Forall (notAhead clock k)
    (map (fun n => if (category n =? old)%string
                   then with_category new n else n) l).
Proof.
  intros H. apply Forall_map. eapply Forall_impl; [|exact H].
  intros n Hn. destruct (category n =? old)%string; exact Hn.
Qed.

Lemma step_notAhead (o : Op) (st : App) (k : nat) :
  Forall (notAhead clock k) (notes st) ->
  (k <= snd (step clock o st k))%nat
  /\ Forall (notAhead clock (snd (step clock o st k)))
            (notes (fst (step clock o st k))).
Proof.
  intros Hst. destruct o; simpl.
  - destruct (handleCreateNote_state clock src categoryHint st k)
      as (i & j & Hj & Hrun).
    rewrite Hrun. simpl. split; [lia|]. constructor.
    + intros j' Hj'. simpl. apply clock_mono. lia.
    + eapply Forall_impl; [|exact Hst].
      intros n. apply notAhead_later. lia.
  - unfold handleUpdateNote. rewrite bind_ret_fst, bind_ret_snd.
    apply (mapM_keeps (notAhead clock)); [apply notAhead_later| |exact Hst].
    intros n k'.
    exact (stamped_notAhead (fun n => (id n =? i)%string)
             (fun n now => spread (spread n (patch t c g))
                {| f_id := None; f_title := None; f_content := None;
                   f_category := None; f_createdAt := None;
                   f_updatedAt := Some now; f_archived := None |})
             n k' (fun _ _ => eq_refl)).
  - split; [lia|]. unfold handleDeleteNote.
    assert (Forall (notAhead clock k)
              (filter (fun n => negb (id n =? i)%string) (notes st))).
    { rewrite Forall_forall in *. intros n Hn.
      apply filter_In in Hn. now apply Hst. }
    destruct (selectedNoteId st) as [s|]; [destruct (s =? i)%string|];
      exact H.
  - unfold handleArchiveToggle. rewrite bind_ret_fst, bind_ret_snd.
    apply (mapM_keeps (notAhead clock)); [apply notAhead_later| |exact Hst].
    intros n k'.
    exact (stamped_notAhead (fun n => (id n =? i)%string) toggled
             n k' (fun _ _ => eq_refl)).
  - split; [lia|]. unfold addCategory.
    destruct (negb _); [exact Hst|].
    destruct (JS.includes _ _); exact Hst.
  - split; [lia|]. unfold renameCategory.
    destruct (negb _ || _); [exact Hst|].
    destruct (JS.includes _ _); [exact Hst|].
    destruct (activeCategory st =? oldName)%string; simpl;
      now apply cascade_notAhead.
  - split; [lia|]. unfold deleteCategory.
    destruct (protected name); [exact Hst|].
    destruct (activeCategory st =? name)%string; simpl;
      now apply cascade_notAhead.
  - split; [lia | exact Hst].
  - split; [lia | exact Hst].
  - split; [lia | exact Hst].
Qed.

Lemma run_notAhead (ops : list Op) (st : App) (k : nat) :
  Forall (notAhead clock k) (notes st) ->
  Forall (notAhead clock (snd (run clock ops st k)))
         (notes (fst (run clock ops st k))).
Proof.
  revert st k. induction ops as [|o ops IH]; intros st k Hst.
  - exact Hst.
  - simpl. unfold bind.
    destruct (step_notAhead o st k Hst) as [_ H].
    destruct (step clock o st k) as [st' k']. now apply IH.
Qed.

Lemma reachable_notAhead (st : App) (k : nat) :
  reachable clock st k -> Forall (notAhead clock k) (notes st).
Proof.
  intros (ops & k0 & Hrun).
  pose proof (run_notAhead ops initial k0 (Forall_nil _)) as H.
  now rewrite Hrun in H.
Qed.

Lemma stamp_not_back (test : Note -> bool) (g : Note -> Z -> Note)
    (l : list Note) (k : nat) :
  (forall m now, updatedAt (g m now) = now) ->
  Forall (notAhead clock k) l ->
  Forall2 (fun n n' => updatedAt n <= updatedAt n') l
    (fst (mapM (fun n => if test n
                         then now <- Date_now clock ;; ret (g n now)
                         else ret n) l k)).
Proof.
  intros Hg Hl. apply mapM_Forall2_from.
  - intros n j. destruct (test n); simpl; lia.
  - intros n j Hn Hj. rewrite Forall_forall in Hl.
    destruct (test n); simpl; [|lia].
    rewrite Hg. now apply (Hl n Hn).
Qed.

End MoreTimestamps.

(** On a clock that never goes back, in a state reached from a first
    start, an edit (whatever fields it carries) or an archive toggle never
    sets the [updatedAt] of a note to an earlier time. *)
Theorem edits_never_turn_updatedAt_back
    (clock : nat -> Z) (i : string) (fields : Fields) (st : App) (k : nat) :
  nondecreasing clock ->
  reachable clock st k ->
  Forall2 (fun n n' => updatedAt n <= updatedAt n')
    (notes st) (notes (fst (handleUpdateNote clock i fields st k)))
  /\ Forall2 (fun n n' => updatedAt n <= updatedAt n')
       (notes st) (notes (fst (handleArchiveToggle clock i st k))).
Proof.
  intros Hmono Hreach.
  pose proof (reachable_notAhead clock Hmono st k Hreach) as Hst.
  unfold handleUpdateNote, handleArchiveToggle.
  rewrite !bind_ret_fst. simpl. split.
  - exact (stamp_not_back clock (fun n => (id n =? i)%string)
             (fun n now => spread (spread n fields)
                {| f_id := None; f_title := None; f_content := None;
                   f_category := None; f_createdAt := None;
                   f_updatedAt := Some now; f_archived := None |})
             (notes st) k (fun _ _ => eq_refl) Hst).
  - exact (stamp_not_back clock (fun n => (id n =? i)%string) toggled
             (notes st) k (fun _ _ => eq_refl) Hst).
Qed.

Lemma created_note_visible (ac q i : string) (c u : Z) :
  blank q = true ->
  visible ac q
    {| id := i;
       title := "Untitled note";
       content := "";
       category := hintedCategory (Some ac);
       createdAt := c;
       updatedAt := u;
       archived := (hintedCategory (Some ac) =? "Archive")%string |} = true.
Proof.
  intros Hq. unfold visible. rewrite (matches_blank q _ Hq), andb_true_r.
  unfold inBase, hintedCategory. simpl.
  destruct (JS.truthy ac && negb (ac =? "All Notes")%string); [|reflexivity].
  destruct (ac =? "Archive")%string; [reflexivity|].
  now rewrite String.eqb_refl.
Qed.

(** On a clock that never goes back, in a state reached from a first
    start and with nothing typed in the search box, the [New Note] button
    puts the new note at the top of the view the user is looking at, above
    the notes that were shown, and selects it. *)
Theorem new_note_tops_the_current_view
    (clock : nat -> Z) (src : IdSource) (st : App) (k : nat) :
  nondecreasing clock ->
  reachable clock st k ->
  blank (searchQuery st) = true ->
  exists n : Note,
    notes (fst (onCreateNote clock src st k)) = n :: notes st
    /\ filteredNotes (notes (fst (onCreateNote clock src st k)))
         (activeCategory (fst (onCreateNote clock src st k)))
         (searchQuery (fst (onCreateNote clock src st k)))
       = n :: filteredNotes (notes st) (activeCategory st) (searchQuery st)
    /\ selectedNote (fst (onCreateNote clock src st k)) = Some n.
Proof.
  intros Hmono Hreach Hq.
  pose proof (reachable_notAhead clock Hmono st k Hreach) as Hst.
  unfold onCreateNote.
  destruct (handleCreateNote_state clock src (Some (activeCategory st)) st k)
    as (i & j & Hj & Hrun).
  rewrite Hrun. cbn [fst notes activeCategory searchQuery].
  eexists. split; [reflexivity|]. split.
  - rewrite !filteredNotes_sort_visible.
    cbn [filter]. rewrite (created_note_visible _ _ _ _ _ Hq).
    change (JS.sort sortNotesByUpdatedAtDesc (?x :: ?l))
      with (JS.insert (byKeyDesc updatedAt) x
              (JS.sort sortNotesByUpdatedAtDesc l)).
    apply insert_top. intros y Hy. cbn [updatedAt].
    apply (Permutation_in _ (sort_perm updatedAt _)) in Hy.
    apply filter_In in Hy. destruct Hy as [Hy _].
    rewrite Forall_forall in Hst. apply (Hst y Hy). lia.
  - unfold selectedNote. cbn [selectedNoteId notes find id].
    now rewrite String.eqb_refl.
Qed.

(** When the registry holds [Archive], as it does from a first start on,
    the category of a note just created is a name of the registry: the
    create action adds the name when it is new. *)
Theorem created_note_has_a_registered_category
    (clock : nat -> Z) (src : IdSource) (hint : option string)
    (st : App) (k : nat) :
  In "Archive" (categories st) ->
  exists n : Note,
    notes (fst (handleCreateNote clock src hint st k)) = n :: notes st
    /\ In (category n) (categories (fst (handleCreateNote clock src hint st k)))
    /\ (forall c, In c (categories st) ->
                  In c (categories (fst (handleCreateNote clock src hint st k)))).
Proof.
  intros Harch.
  destruct (handleCreateNote_state clock src hint st k) as (i & j & _ & Hrun).
  rewrite Hrun. cbn [fst notes categories].
  eexists. split; [reflexivity|]. cbn [category].
  destruct (JS.includes (categories st) (hintedCategory hint)) eqn:Hin.
  - simpl. split; [now apply includes_In | auto].
  - destruct (String.eqb_spec (hintedCategory hint) "Archive") as [E|E]; simpl.
    + split; [now rewrite E | auto].
    + split; [apply in_or_app; right; now left|].
      intros c Hc. apply in_or_app. now left.
Qed.

(** An archive toggle moves the note from one side to the other: a note
    that was not archived is then shown under [Archive] and under no other
    category, whatever the search; a note that was archived is then shown
    under [All Notes] and no longer under [Archive]. *)
Theorem archive_toggle_moves_between_views
    (clock : nat -> Z) (i : string) (st : App) (k : nat) :
  Forall2
    (fun n n' =>
       id n = i ->
       (archived n = false ->
        In n' (filteredNotes
                 (notes (fst (handleArchiveToggle clock i st k))) "Archive" "")
        /\ forall c q, c <> "Archive" ->
             ~ In n' (filteredNotes
                        (notes (fst (handleArchiveToggle clock i st k))) c q))
       /\ (archived n = true ->
           In n' (filteredNotes
                    (notes (fst (handleArchiveToggle clock i st k)))
                    "All Notes" "")
           /\ forall q,
                ~ In n' (filteredNotes
                           (notes (fst (handleArchiveToggle clock i st k)))
                           "Archive" q)))
    (notes st) (notes (fst (handleArchiveToggle clock i st k))).
Proof.
  pose proof (Forall2_In_r _ _ _ (handleArchiveToggle_notes clock i st k)) as H.
  eapply Forall2_impl; [|exact H]. clear H.
  intros n n' [Ht Hin] Hid. unfold toggledBy in Ht.
  apply String.eqb_eq in Hid. rewrite Hid in Ht. destruct Ht as [now ->].
  split; intros Ha.
  - split.
    + apply filteredNotes_In. split; [exact Hin|].
      unfold visible, inBase, matches. simpl. now rewrite Ha.
    + intros c q Hc Hv. apply filteredNotes_In in Hv. destruct Hv as [_ Hv].
      unfold visible in Hv. apply andb_true_iff in Hv. destruct Hv as [Hv _].
      apply inBase_archived in Hv. simpl in Hv. rewrite Ha in Hv.
      apply String.eqb_neq in Hc. simpl in Hv. congruence.
  - split.
    + apply filteredNotes_In. split; [exact Hin|].
      unfold visible, inBase, matches. simpl. now rewrite Ha.
    + intros q Hv. apply filteredNotes_In in Hv. destruct Hv as [_ Hv].
      unfold visible in Hv. apply andb_true_iff in Hv. destruct Hv as [Hv _].
      apply inBase_archived in Hv. simpl in Hv. rewrite Ha in Hv.
      discriminate.
Qed.

Lemma update_touches_id (clock : nat -> Z) (i : string)
    (t c g : option string) (st : App) (k : nat) (n' : Note) :
  In n' (notes (fst (handleUpdateNote clock i (patch t c g) st k))) ->
  exists n, In n (notes st) /\ id n' = id n /\ createdAt n' = createdAt n.
Proof.
  unfold handleUpdateNote. rewrite bind_ret_fst. simpl. intros H.
  assert (HF : Forall2 (updatedBy i t c g) (notes st)
                 (fst (mapM (fun n =>
                    if (id n =? i)%string
                    then now <- Date_now clock ;;
                         ret (spread (spread n (patch t c g))
                                {| f_id := None; f_title := None;
                                   f_content := None; f_category := None;
                                   f_createdAt := None;
                                   f_updatedAt := Some now;
                                   f_archived := None |})
                    else ret n) (notes st) k))).
  { apply mapM_Forall2. intros n k'. unfold updatedBy.
    destruct (id n =? i)%string; simpl; auto 10. }
  destruct (Forall2_In_source _ _ _ _ HF H) as (n & Hn & Hu).
  exists n. split; [exact Hn|]. unfold updatedBy in Hu.
  destruct (id n =? i)%string; [tauto | subst n'; auto].
Qed.

(** No action rewrites the id or the creation time of a note: every note
    of the collection after an action is a note that was there, with the
    same id and [createdAt], or the note that a create action has just put
    in front. *)
Theorem no_action_changes_id_or_creation_time
    (clock : nat -> Z) (o : Op) (st : App) (k : nat) (n' : Note) :
  In n' (notes (fst (step clock o st k))) ->
  (exists n, In n (notes st) /\ id n' = id n /\ createdAt n' = createdAt n)
  \/ (exists src h, o = CreateNote src h
                    /\ hd_error (notes (fst (step clock o st k))) = Some n').
Proof.
  assert (Hcascade : forall old new l,
             In n' (map (fun n => if (category n =? old)%string
                                  then with_category new n else n) l) ->
             exists n, In n l /\ id n' = id n /\ createdAt n' = createdAt n).
  { intros old new l H. apply in_map_iff in H. destruct H as (n & <- & Hn).
    exists n. split; [exact Hn|].
    destruct (category n =? old)%string; split; reflexivity. }
  assert (Hsame : In n' (notes st) ->
             exists n, In n (notes st)
                       /\ id n' = id n /\ createdAt n' = createdAt n)
    by (intros H; exists n'; auto).
  destruct o; simpl.
  - destruct (handleCreateNote_state clock src categoryHint st k)
      as (i & j & _ & Hrun).
    rewrite Hrun. cbn [fst notes]. intros [<-|H].
    + right. exists src, categoryHint. split; reflexivity.
    + left. now apply Hsame.
  - intros H. left.
    destruct (update_touches_id clock i t c g st k n' H) as (n & Hn & E1 & E2).
    exists n. auto.
  - intros H. left. apply Hsame.
    unfold handleDeleteNote in H.
    destruct (selectedNoteId st) as [s|]; [destruct (s =? i)%string|];
      simpl in H; now apply filter_In in H.
  - intros H. left.
    destruct (Forall2_In_source _ _ _ _
                (handleArchiveToggle_notes clock i st k) H) as (n & Hn & Ht).
    exists n. split; [exact Hn|]. unfold toggledBy in Ht.
    destruct (id n =? i)%string; [destruct Ht as [now ->] | subst n'];
      split; reflexivity.
  - intros H. left. apply Hsame. unfold addCategory in H.
    destruct (negb _); [exact H|].
    destruct (JS.includes _ _); exact H.
  - intros H. left. unfold renameCategory in H.
    destruct (negb _ || _); [now apply Hsame|].
    destruct (JS.includes _ _); [now apply Hsame|].
    destruct (activeCategory st =? oldName)%string; simpl in H;
      now apply Hcascade in H.
  - intros H. left. unfold deleteCategory in H.
    destruct (protected name); [now apply Hsame|].
    destruct (activeCategory st =? name)%string; simpl in H;
      now apply Hcascade in H.
  - intros H. left. now apply Hsame.
  - intros H. left. now apply Hsame.
  - intros H. left. now apply Hsame.
Qed.

(** ** More on the category registry *)

Lemma NoDup_snoc {A : Type} (l : list A) (a : A) :
  NoDup l -> ~ In a l -> NoDup (l ++ [a]).
Proof.
  induction 1 as [|x l Hx Hl IH]; intros Ha; simpl.
  - constructor; [intros [] | constructor].
  - constructor.
    + intros H. apply in_app_or in H. simpl in *. intuition congruence.
    + apply IH. simpl in Ha. tauto.
Qed.

Lemma In_renamed (oldName new c : string) (l : list string) :
  In c (map (fun c => if (c =? oldName)%string then new else c) l) ->
  c = new \/ (In c l /\ c <> oldName).
Proof.
  intros H. apply in_map_iff in H. destruct H as (x & Hx & Hin).
  destruct (String.eqb_spec x oldName) as [E|E]; [now left|].
  right. subst c. tauto.
Qed.

Lemma NoDup_renamed (oldName new : string) (l : list string) :
  NoDup l -> ~ In new l ->
  NoDup (map (fun c => if (c =? oldName)%string then new else c) l).
Proof.
  induction 1 as [|x l Hx Hl IH]; intros Hnew; simpl; [constructor|].
  assert (Hnew' : ~ In new l) by (simpl in Hnew; tauto).
  constructor; [|now apply IH].
  intros H. destruct (String.eqb_spec x oldName) as [E|E].
  - subst x. rewrite (map_absent oldName new l Hx) in H. tauto.
  - apply In_renamed in H. destruct H as [H|[H _]]; [|tauto].
    simpl in Hnew. intuition congruence.
Qed.

Lemma hintedCategory_nonempty (hint : option string) :
  hintedCategory hint <> "".
Proof.
  unfold hintedCategory. destruct hint as [h|]; [|discriminate].
  destruct (JS.truthy h) eqn:E; simpl; [|discriminate].
  destruct (negb _); [|discriminate]. now apply truthy_nonempty.
Qed.

Lemma step_keeps_registry_sound (clock : nat -> Z) (o : Op) (st : App)
    (k : nat) :
  NoDup (categories st) /\ ~ In "" (categories st) ->
  NoDup (categories (fst (step clock o st k)))
  /\ ~ In "" (categories (fst (step clock o st k))).
Proof.
  intros [Hnd Hne]. destruct o; simpl.
  - destruct (handleCreateNote_state clock src categoryHint st k)
      as (i & j & _ & Hrun).
    rewrite Hrun. cbn [fst categories].
    destruct (JS.includes _ _) eqn:Hin; simpl; [tauto|].
    destruct (_ =? "Archive")%string; simpl; [tauto|].
    apply includes_not_In in Hin. split; [now apply NoDup_snoc|].
    intros H. apply in_app_or in H. destruct H as [H|[H|[]]]; [tauto|].
    now apply (hintedCategory_nonempty categoryHint).
  - unfold handleUpdateNote. rewrite bind_ret_fst. simpl. tauto.
  - unfold handleDeleteNote.
    destruct (selectedNoteId st) as [s|]; [destruct (s =? i)%string|];
      simpl; tauto.
  - unfold handleArchiveToggle. rewrite bind_ret_fst. simpl. tauto.
  - unfold addCategory. destruct (JS.truthy (JS.trim name)) eqn:Ht; simpl;
      [|tauto].
    destruct (JS.includes _ _) eqn:Hin; [tauto|]. simpl.
    apply includes_not_In in Hin. split; [now apply NoDup_snoc|].
    intros H. apply in_app_or in H. destruct H as [H|[H|[]]]; [tauto|].
    apply truthy_nonempty in Ht. congruence.
  - unfold renameCategory.
    destruct (JS.truthy (JS.trim newName)) eqn:Ht; simpl; [|tauto].
    destruct (protected oldName); [tauto|].
    destruct (JS.includes _ _) eqn:Hin; [tauto|].
    apply includes_not_In in Hin.
    assert (NoDup (map (fun c => if (c =? oldName)%string
                                 then JS.trim newName else c) (categories st))
            /\ ~ In "" (map (fun c => if (c =? oldName)%string
                                      then JS.trim newName else c)
                            (categories st))).
    { split; [now apply NoDup_renamed|].
      intros H. apply In_renamed in H. apply truthy_nonempty in Ht.
      destruct H as [H|[H _]]; [congruence | tauto]. }
    destruct (activeCategory st =? oldName)%string; exact H.
  - unfold deleteCategory. destruct (protected name); [tauto|].
    assert (NoDup (filter (fun c => negb (c =? name)%string) (categories st))
            /\ ~ In "" (filter (fun c => negb (c =? name)%string)
                               (categories st))).
    { split; [now apply NoDup_filter|].
      intros H. apply filter_In in H. tauto. }
    destruct (activeCategory st =? name)%string; exact H.
  - tauto.
  - tauto.
  - tauto.
Qed.

(** From a first start, whatever the user does, the registry never holds
    a name twice and never holds the empty name. *)
Theorem registry_names_stay_distinct
    (clock : nat -> Z) (ops : list Op) (k : nat) :
  NoDup (categories (fst (run clock ops initial k)))
  /\ ~ In "" (categories (fst (run clock ops initial k))).
Proof.
  assert (H0 : NoDup (categories initial) /\ ~ In "" (categories initial)).
  { split.
    - simpl. unfold DEFAULT_CATEGORIES.
      repeat (constructor; [simpl; intuition discriminate|]). constructor.
    - simpl. intuition discriminate. }
  revert H0. generalize initial. revert k.
  induction ops as [|o ops IH]; intros k st Hst; [exact Hst|].
  simpl. unfold bind.
  pose proof (step_keeps_registry_sound clock o st k Hst) as H.
  destruct (step clock o st k) as [st' k']. now apply IH.
Qed.

Lemma deleteCategory_accepted (name : string) (st : App) :
  protected name = false ->
  deleteCategory name st
  = {| categories := filter (fun c => negb (c =? name)%string) (categories st);
       activeCategory :=
         if (activeCategory st =? name)%string then "All Notes"
         else activeCategory st;
       newCategoryName := newCategoryName st;
       notes :=
         map (fun n => if (category n =? name)%string
                       then with_category "Personal" n else n)
             (notes st);
       searchQuery := searchQuery st;
       selectedNoteId := selectedNoteId st |}.
Proof.
  intros Hp. unfold deleteCategory. rewrite Hp.
  destruct (activeCategory st =? name)%string; reflexivity.
Qed.

Lemma cascaded_drops_old (oldName new : string) (l l' : list Note) :
  oldName <> new ->
  Forall2 (cascaded oldName new) l l' ->
  forall n', In n' l' -> category n' <> oldName.
Proof.
  intros Hne HF n' Hn'.
  destruct (Forall2_In_source _ _ _ _ HF Hn') as (n & _ & _ & H1 & H2).
  destruct (String.eqb_spec (category n) oldName) as [E|E].
  - rewrite (H1 E). congruence.
  - now rewrite (H2 E).
Qed.

(** Deleting a category that is not protected takes the name out of the
    registry and leaves every other name; it moves the notes of that
    category to [Personal] without touching any other field, and sends the
    active view to [All Notes] when it was the deleted category.  Unless
    the deleted name is [Personal] itself, no note carries it afterwards. *)
Theorem delete_category_cascades (name : string) (st : App) :
  protected name = false ->
  ~ In name (categories (deleteCategory name st))
  /\ (forall c, c <> name ->
        (In c (categories (deleteCategory name st)) <-> In c (categories st)))
  /\ Forall2 (cascaded name "Personal")
             (notes st) (notes (deleteCategory name st))
  /\ (name <> "Personal" ->
      forall n, In n (notes (deleteCategory name st)) -> category n <> name)
  /\ (activeCategory st = name ->
      activeCategory (deleteCategory name st) = "All Notes")
  /\ (activeCategory st <> name ->
      activeCategory (deleteCategory name st) = activeCategory st).
Proof.
  intros Hp. rewrite (deleteCategory_accepted name st Hp). simpl.
  split; [|split; [|split; [|split; [|split]]]].
  - intros H. apply filter_In in H. destruct H as [_ H].
    now rewrite String.eqb_refl in H.
  - intros c Hc. rewrite filter_In, negb_true_iff, String.eqb_neq. tauto.
  - apply cascade_cascaded.
  - intros Hne. apply (cascaded_drops_old name "Personal" (notes st));
      [exact Hne | apply cascade_cascaded].
  - intros E. apply String.eqb_eq in E. now rewrite E.
  - intros E. apply String.eqb_neq in E. now rewrite E.
Qed.

(** After an accepted rename to a different name, the old name is gone
    from the registry, from every note and from the active view; the
    registry keeps its length, and the new name stands where the old one
    stood. *)
Theorem rename_leaves_no_trace_of_old_name
    (oldName newName : string) (st : App) :
  JS.trim newName <> "" ->
  protected oldName = false ->
  ~ In (JS.trim newName) (categories st) ->
  oldName <> JS.trim newName ->
  ~ In oldName (categories (renameCategory oldName newName st))
  /\ List.length (categories (renameCategory oldName newName st))
     = List.length (categories st)
  /\ (forall p : nat,
        nth_error (categories st) p = Some oldName ->
        nth_error (categories (renameCategory oldName newName st)) p
        = Some (JS.trim newName))
  /\ (forall (p : nat) (c : string),
        c <> oldName -> nth_error (categories st) p = Some c ->
        nth_error (categories (renameCategory oldName newName st)) p = Some c)
  /\ (forall n, In n (notes (renameCategory oldName newName st)) ->
                category n <> oldName)
  /\ activeCategory (renameCategory oldName newName st) <> oldName.
Proof.
  intros Hne Hprot Hnew Hdiff.
  rewrite (renameCategory_accepted oldName newName st Hne Hprot Hnew).
  simpl. split; [|split; [|split; [|split; [|split]]]].
  - intros H. apply In_renamed in H. destruct H as [H|[_ H]]; congruence.
  - apply length_map.
  - intros p Hp. rewrite nth_error_map, Hp. simpl.
    now rewrite String.eqb_refl.
  - intros p c Hc Hp. rewrite nth_error_map, Hp. simpl.
    apply String.eqb_neq in Hc. now rewrite Hc.
  - apply (cascaded_drops_old oldName (JS.trim newName) (notes st));
      [exact Hdiff | apply cascade_cascaded].
  - destruct (String.eqb_spec (activeCategory st) oldName); congruence.
Qed.

Lemma map_rename_back (a b : string) (l : list string) :
  ~ In b l ->
  map (fun c => if (c =? b)%string then a else c)
      (map (fun c => if (c =? a)%string then b else c) l) = l.
Proof.
  induction l as [|c l IH]; intros Hb; simpl; [reflexivity|].
  simpl in Hb. rewrite IH by tauto. f_equal.
  destruct (String.eqb_spec c a) as [E|E].
  - now rewrite String.eqb_refl.
  - destruct (String.eqb_spec c b); [intuition congruence | reflexivity].
Qed.

Lemma cascade_back (a b : string) (l : list Note) :
  (forall n, In n l -> category n <> b) ->
  map (fun n => if (category n =? b)%string then with_category a n else n)
      (map (fun n => if (category n =? a)%string then with_category b n else n)
           l) = l.
Proof.
  induction l as [|n l IH]; intros Hb; simpl; [reflexivity|].
  rewrite IH by (intros m Hm; apply Hb; now right). f_equal.
  destruct (String.eqb_spec (category n) a) as [E|E].
  - simpl. rewrite String.eqb_refl. destruct n. simpl in *. now subst.
  - assert (category n <> b) by (apply Hb; now left).
    destruct (String.eqb_spec (category n) b); [contradiction | reflexivity].
Qed.

(** Renaming a category and renaming it back restores the whole state,
    when the names are trimmed and not protected, and the name in between
    was unused: not in the registry, on no note, and not the active
    view. *)
Theorem rename_and_back_restores_the_state (a b : string) (st : App) :
  protected a = false -> protected b = false ->
  JS.trim a = a -> a <> "" ->
  JS.trim b = b -> b <> "" ->
  ~ In b (categories st) ->
  (forall n, In n (notes st) -> category n <> b) ->
  activeCategory st <> b ->
  renameCategory b a (renameCategory a b st) = st.
Proof.
  intros Hpa Hpb Hta Hna Htb Hnb Hb Hnotes Hact.
  assert (H1 : renameCategory a b st
               = {| categories :=
                      map (fun c => if (c =? a)%string then b else c)
                          (categories st);
                    activeCategory :=
                      if (activeCategory st =? a)%string then b
                      else activeCategory st;
                    newCategoryName := newCategoryName st;
                    notes :=
                      map (fun n => if (category n =? a)%string
                                    then with_category b n else n)
                          (notes st);
                    searchQuery := searchQuery st;
                    selectedNoteId := selectedNoteId st |}).
  { rewrite renameCategory_accepted; rewrite ?Htb; auto. }
  rewrite H1. rewrite renameCategory_accepted; rewrite ?Hta; auto.
  - simpl. rewrite map_rename_back by exact Hb.
    rewrite cascade_back by exact Hnotes.
    destruct st as [cs ac nc ns sq sel]. simpl in *. f_equal.
    destruct (String.eqb_spec ac a) as [E|E].
    + now rewrite String.eqb_refl.
    + destruct (String.eqb_spec ac b); [contradiction | reflexivity].
  - simpl. intros H. pose proof (In_renamed _ _ _ _ H) as H'.
    destruct H' as [E|[_ E]]; [|congruence].
    subst b. apply in_map_iff in H. destruct H as (x & Hx & Hin).
    destruct (String.eqb_spec x a); congruence.
Qed.

Lemma addCategory_rejected (name : string) (st : App) :
  JS.trim name = "" \/ In (JS.trim name) (categories st) ->
  addCategory name st = st.
Proof.
  unfold addCategory. intros [H|H].
  - now rewrite H.
  - apply includes_In in H. rewrite H. now destruct (negb _).
Qed.

Lemma addCategory_accepted (name : string) (st : App) :
  JS.trim name <> "" ->
  ~ In (JS.trim name) (categories st) ->
  addCategory name st
  = {| categories := (categories st ++ [JS.trim name])%list;
       activeCategory := activeCategory st;
       newCategoryName := "";
       notes := notes st;
       searchQuery := searchQuery st;
       selectedNoteId := selectedNoteId st |}.
Proof.
  intros Hne Hnew. unfold addCategory.
  apply truthy_nonempty in Hne. apply includes_not_In in Hnew.
  now rewrite Hne, Hnew.
Qed.

(** Adding a category touches neither the notes nor the active view and
    removes no name; a name that is not blank is in the registry
    afterwards, and adding it a second time changes nothing more. *)
Theorem add_category_twice_adds_once (name : string) (st : App) :
  addCategory name (addCategory name st) = addCategory name st
  /\ notes (addCategory name st) = notes st
  /\ activeCategory (addCategory name st) = activeCategory st
  /\ (forall c, In c (categories st) ->
                In c (categories (addCategory name st)))
  /\ (JS.trim name <> "" ->
      In (JS.trim name) (categories (addCategory name st))).
Proof.
  destruct (string_dec (JS.trim name) "") as [He|He].
  - rewrite !(addCategory_rejected name st) by now left.
    repeat split; auto. intros H. contradiction.
  - destruct (in_dec string_dec (JS.trim name) (categories st)) as [Hin|Hin].
    + rewrite !(addCategory_rejected name st) by now right.
      repeat split; auto.
    + rewrite (addCategory_accepted name st He Hin). simpl.
      split; [|repeat split; auto].
      * apply addCategory_rejected. right. simpl.
        apply in_or_app. right. now left.
      * intros c Hc. apply in_or_app. now left.
      * intros _. apply in_or_app. right. now left.
Qed.

(** ** Theme, cards and storage *)

(** Whatever the stored theme was, a toggle gives [light] or [dark]; two
    toggles give the theme back exactly when it was one of the two; and the
    button is labelled with the theme that the next toggle gives. *)
Theorem theme_toggle_alternates (theme : string) :
  (toggleTheme theme = "light" \/ toggleTheme theme = "dark")
  /\ (toggleTheme (toggleTheme theme) = theme
      <-> theme = "light" \/ theme = "dark")
  /\ (toggleTheme theme = "dark" -> themeButton theme = "Dark mode")
  /\ (toggleTheme theme = "light" -> themeButton theme = "Light mode").
Proof.
  unfold toggleTheme, themeButton.
  destruct (String.eqb_spec theme "light") as [->|Hl]; simpl.
  - split; [now right|]. split; [|split; [reflexivity | discriminate]].
    split; [now left | reflexivity].
  - split; [now left|]. split; [|split; [discriminate | reflexivity]].
    split; [intros E; now right | intros [E|E]; congruence].
Qed.

Lemma substring_length (m : nat) (s : string) :
  String.length (String.substring 0 m s) = Nat.min m (String.length s).
Proof.
  revert s. induction m as [|m IH]; intros s.
  - now destruct s.
  - destruct s as [|c s]; simpl; [reflexivity | now rewrite IH].
Qed.

Lemma substring_prefix (m : nat) (s : string) :
  String.prefix (String.substring 0 m s) s = true.
Proof.
  revert s. induction m as [|m IH]; intros s.
  - now destruct s.
  - destruct s as [|c s]; simpl; [reflexivity|].
    destruct (Ascii.ascii_dec c c); [apply IH | contradiction].
Qed.

Lemma substring_whole (m : nat) (s : string) :
  (String.length s <= m)%nat -> String.substring 0 m s = s.
Proof.
  revert s. induction m as [|m IH]; intros s Hs.
  - destruct s; [reflexivity | simpl in Hs; lia].
  - destruct s as [|c s]; simpl; [reflexivity|].
    rewrite IH; [reflexivity | simpl in Hs; lia].
Qed.

(** The excerpt on a note card is never empty and never longer than 120
    characters: it is the beginning of the content, all of it when it has
    at most 120 characters, and a placeholder when there is no content. *)
Theorem card_excerpt_is_bounded (n : Note) :
  cardExcerpt n <> ""
  /\ (String.length (cardExcerpt n) <= 120)%nat
  /\ (content n = "" -> cardExcerpt n = "No content yet...")
  /\ (content n <> "" -> String.prefix (cardExcerpt n) (content n) = true)
  /\ (content n <> "" -> (String.length (content n) <= 120)%nat ->
      cardExcerpt n = content n).
Proof.
  unfold cardExcerpt, JS.or_else.
  destruct (content n) as [|c s] eqn:Hc.
  - simpl. repeat split; try discriminate; auto; try congruence.
    simpl. lia.
  - cbn [JS.truthy]. 
    change (String.substring 0 120 (String c s))
      with (String c (String.substring 0 119 s)).
    cbn [JS.truthy]. repeat split; try discriminate.
    + change (String c (String.substring 0 119 s))
        with (String.substring 0 120 (String c s)).
      rewrite substring_length. apply Nat.le_min_l.
    + intros _.
      change (String c (String.substring 0 119 s))
        with (String.substring 0 120 (String c s)).
      apply substring_prefix.
    + intros _ Hlen.
      change (String c (String.substring 0 119 s))
        with (String.substring 0 120 (String c s)).
      now apply substring_whole.
Qed.

(** What was saved under a key is what is loaded from it, when the write
    went through and the text of the value reads back as the value; the
    write leaves what is loaded from every other key, and a write that
    failed leaves what is loaded from all keys. *)
Theorem saved_value_is_loaded_back
    {V : Type} (parse : string -> option V) (stringify : V -> string)
    (s : Storage) (key : string) (value fallback : V) :
  parse (stringify value) = Some value ->
  stringify value <> "" ->
  loadFromStorage parse (saveToStorage stringify true key value s)
                  key fallback = value
  /\ (forall other fb, other <> key ->
        loadFromStorage parse (saveToStorage stringify true key value s)
                        other fb
        = loadFromStorage parse s other fb)
  /\ (forall other fb,
        loadFromStorage parse (saveToStorage stringify false key value s)
                        other fb
        = loadFromStorage parse s other fb).
Proof.
  intros Hrt Hne. unfold loadFromStorage, saveToStorage, setItem.
  split; [|split].
  - rewrite String.eqb_refl. apply truthy_nonempty in Hne.
    now rewrite Hne, Hrt.
  - intros other fb Ho. apply String.eqb_neq in Ho. now rewrite Ho.
  - reflexivity.
Qed.

Lemma load_after_save {V : Type} (parse : string -> option V)
    (stringify : V -> string) (s : Storage) (key : string)
    (value fallback : V) :
  parse (stringify value) = Some value ->
  stringify value <> "" ->
  loadFromStorage parse (saveToStorage stringify true key value s)
                  key fallback = value.
Proof.
  intros Hrt Hne. unfold loadFromStorage, saveToStorage, setItem.
  rewrite String.eqb_refl. apply truthy_nonempty in Hne.
  now rewrite Hne, Hrt.
Qed.

Lemma load_after_other_save {V W : Type} (parse : string -> option V)
    (stringify : W -> string) (written : bool) (s : Storage)
    (key other : string) (value : W) (fallback : V) :
  other <> key ->
  loadFromStorage parse (saveToStorage stringify written key value s)
                  other fallback
  = loadFromStorage parse s other fallback.
Proof.
  intros Ho. unfold loadFromStorage, saveToStorage, setItem.
  destruct written; [|reflexivity].
  apply String.eqb_neq in Ho. now rewrite Ho.
Qed.

(** A first start, with nothing in storage, begins in the default state.
    After the notes and the categories were written, a restart finds them
    again, the notes field for field and in their order, and resets the
    view, the search and the selection; when only the write of the notes
    went through, a restart finds the new notes beside the categories that
    were stored before. *)
Theorem restart_restores_notes_and_categories
    (parseCategories : string -> option (list string))
    (parseNotes : string -> option (list Note))
    (stringifyCategories : list string -> string)
    (stringifyNotes : list Note -> string)
    (st : App) (s : Storage) :
  parseNotes (stringifyNotes (notes st)) = Some (notes st) ->
  stringifyNotes (notes st) <> "" ->
  parseCategories (stringifyCategories (categories st))
  = Some (categories st) ->
  stringifyCategories (categories st) <> "" ->
  start parseCategories parseNotes emptyStorage = initial
  /\ start parseCategories parseNotes
       (persist stringifyCategories stringifyNotes true true st s)
     = {| categories := categories st;
          activeCategory := "All Notes";
          newCategoryName := "";
          notes := notes st;
          searchQuery := "";
          selectedNoteId := None |}
  /\ start parseCategories parseNotes
       (persist stringifyCategories stringifyNotes true false st s)
     = {| categories := categories (start parseCategories parseNotes s);
          activeCategory := "All Notes";
          newCategoryName := "";
          notes := notes st;
          searchQuery := "";
          selectedNoteId := None |}.
Proof.
  intros HN HNe HC HCe. split; [reflexivity|].
  unfold start, persist. split; f_equal.
  - now apply load_after_save.
  - rewrite load_after_other_save by discriminate.
    now apply load_after_save.
  - rewrite load_after_other_save by discriminate.
    now apply load_after_save.
Qed.

(** ** Concrete instances of the further properties *)

Lemma category_view_witness :
  filteredNotes (notes desk) "Work" "plan"
  = filter (visible "Work" "plan") (filteredNotes (notes desk) "All Notes" "").
Proof.
  apply (category_view_filters_all_notes_view (notes desk) "Work" "plan").
  discriminate.
Defined.

Lemma blank_query_witness :
  filteredNotes (notes desk) "Work" "  " = filteredNotes (notes desk) "Work" "".
Proof.
  apply (blank_query_filters_nothing (notes desk) "Work" "  ").
  reflexivity.
Defined.


Lemma query_case_witness :
  filteredNotes (notes desk) "All Notes" "PLAN"
  = filteredNotes (notes desk) "All Notes" "plan".
Proof.
  apply (query_case_is_ignored (notes desk) "All Notes" "PLAN" "plan").
  reflexivity.
Defined.

Lemma unknown_id_witness :
  handleUpdateNote ticking "Z" (patch (Some "x") None None) desk 0%nat
  = (desk, 0%nat)
  /\ handleArchiveToggle ticking "Z" desk 0%nat = (desk, 0%nat)
  /\ notes (handleDeleteNote "Z" desk) = notes desk
  /\ (selectedNoteId desk <> Some "Z" -> handleDeleteNote "Z" desk = desk).
Proof.
  apply (unknown_id_changes_nothing ticking "Z" (patch (Some "x") None None)
           desk 0%nat).
  intros n Hn. simpl in Hn.
  destruct Hn as [<-|[<-|[<-|[<-|[]]]]]; discriminate.
Defined.

Lemma updatedAt_not_back_witness :
  Forall2 (fun n n' => updatedAt n <= updatedAt n')
    (notes worked)
    (notes (fst (handleUpdateNote ticking "n1" (patch None (Some "milk") None)
                   worked workedTicks)))
  /\ Forall2 (fun n n' => updatedAt n <= updatedAt n')
       (notes worked)
       (notes (fst (handleArchiveToggle ticking "n1" worked workedTicks))).
Proof.
  apply (edits_never_turn_updatedAt_back ticking "n1"
           (patch None (Some "milk") None) worked workedTicks).
  - unfold nondecreasing, ticking. intros i j Hij. lia.
  - exists session, 0%nat. apply surjective_pairing.
Defined.

Lemma new_note_witness :
  exists n : Note,
    notes (fst (onCreateNote ticking (RandomUUID "n3") worked workedTicks))
    = n :: notes worked
    /\ filteredNotes
         (notes (fst (onCreateNote ticking (RandomUUID "n3") worked workedTicks)))
         (activeCategory
            (fst (onCreateNote ticking (RandomUUID "n3") worked workedTicks)))
         (searchQuery
            (fst (onCreateNote ticking (RandomUUID "n3") worked workedTicks)))
       = n :: filteredNotes (notes worked) (activeCategory worked)
                (searchQuery worked)
    /\ selectedNote
         (fst (onCreateNote ticking (RandomUUID "n3") worked workedTicks))
       = Some n.
Proof.
  apply (new_note_tops_the_current_view ticking (RandomUUID "n3")
           worked workedTicks).
  - unfold nondecreasing, ticking. intros i j Hij. lia.
  - exists session, 0%nat. apply surjective_pairing.
  - reflexivity.
Defined.

Lemma registered_category_witness :
  exists n : Note,
    notes (fst (handleCreateNote ticking (RandomUUID "n3") (Some "Recipes")
                  desk 0%nat))
    = n :: notes desk
    /\ In (category n)
          (categories (fst (handleCreateNote ticking (RandomUUID "n3")
                              (Some "Recipes") desk 0%nat)))
    /\ (forall c, In c (categories desk) ->
                  In c (categories
                          (fst (handleCreateNote ticking (RandomUUID "n3")
                                  (Some "Recipes") desk 0%nat)))).
Proof.
  apply (created_note_has_a_registered_category ticking (RandomUUID "n3")
           (Some "Recipes") desk 0%nat).
  simpl. auto 6.
Defined.

Lemma id_kept_witness :
  (exists n, In n (notes desk)
             /\ id (with_category "Job" noteB) = id n
             /\ createdAt (with_category "Job" noteB) = createdAt n)
  \/ (exists src h,
         RenameCategory "Work" "Job" = CreateNote src h
         /\ hd_error
              (notes (fst (step ticking (RenameCategory "Work" "Job")
                             desk 0%nat)))
            = Some (with_category "Job" noteB)).
Proof.
  apply (no_action_changes_id_or_creation_time ticking
           (RenameCategory "Work" "Job") desk 0%nat
           (with_category "Job" noteB)).
  vm_compute. auto.
Defined.

Lemma delete_category_witness :
  ~ In "Work" (categories (deleteCategory "Work" desk))
  /\ (forall c, c <> "Work" ->
        (In c (categories (deleteCategory "Work" desk))
         <-> In c (categories desk)))
  /\ Forall2 (cascaded "Work" "Personal")
             (notes desk) (notes (deleteCategory "Work" desk))
  /\ ("Work" <> "Personal" ->
      forall n, In n (notes (deleteCategory "Work" desk)) ->
                category n <> "Work")
  /\ (activeCategory desk = "Work" ->
      activeCategory (deleteCategory "Work" desk) = "All Notes")
  /\ (activeCategory desk <> "Work" ->
      activeCategory (deleteCategory "Work" desk) = activeCategory desk).
Proof.
  split; [|exact (proj2 (delete_category_cascades "Work" desk eq_refl))].
  exact (proj1 (delete_category_cascades "Work" desk eq_refl)).
Defined.

Lemma rename_trace_witness :
  ~ In "Work" (categories (renameCategory "Work" " Job " desk))
  /\ nth_error (categories (renameCategory "Work" " Job " desk)) 2
     = Some "Job".
Proof.
  assert (H := rename_leaves_no_trace_of_old_name "Work" " Job " desk).
  destruct H as (H1 & _ & H3 & _).
  - vm_compute. discriminate.
  - reflexivity.
  - vm_compute. intuition discriminate.
  - vm_compute. discriminate.
  - split; [exact H1|]. replace "Job" with (JS.trim " Job ") by reflexivity.
    apply H3. reflexivity.
Defined.

Lemma rename_back_witness :
  renameCategory "Job" "Work" (renameCategory "Work" "Job" desk) = desk.
Proof.
  apply (rename_and_back_restores_the_state "Work" "Job" desk).
  - reflexivity.
  - reflexivity.
  - reflexivity.
  - discriminate.
  - reflexivity.
  - discriminate.
  - simpl. intuition discriminate.
  - intros n Hn. simpl in Hn.
    destruct Hn as [<-|[<-|[<-|[<-|[]]]]]; discriminate.
  - discriminate.
Defined.

Lemma saved_theme_witness :
  loadFromStorage (readAmong jsonString ["light"; "dark"])
    (saveToStorage jsonString true STORAGE_KEYS.THEME "dark" emptyStorage)
    STORAGE_KEYS.THEME "light"
  = "dark".
Proof.
  apply (saved_value_is_loaded_back (readAmong jsonString ["light"; "dark"])
           jsonString emptyStorage STORAGE_KEYS.THEME "dark" "light").
  - reflexivity.
  - discriminate.
Defined.

Lemma restart_witness :
  start (readAmong (jsonArray jsonString) [categories desk])
        (readAmong (jsonArray jsonNote) [notes desk])
        (persist (jsonArray jsonString) (jsonArray jsonNote) true true
           desk emptyStorage)
  = {| categories := categories desk;
       activeCategory := "All Notes";
       newCategoryName := "";
       notes := notes desk;
       searchQuery := "";
       selectedNoteId := None |}.
Proof.
  apply (restart_restores_notes_and_categories
           (readAmong (jsonArray jsonString) [categories desk])
           (readAmong (jsonArray jsonNote) [notes desk])
           (jsonArray jsonString) (jsonArray jsonNote) desk emptyStorage).
  - vm_compute. reflexivity.
  - vm_compute. discriminate.
  - vm_compute. reflexivity.
  - vm_compute. discriminate.
Defined.
